(** * Native instruction patching on AArch64 (nativeInst_aarch64.cpp)

    A shallow embedding of the per-site operations of
    [src/hotspot/cpu/aarch64/nativeInst_aarch64.cpp]: code memory is a flat
    byte-addressed store, every operation is a computation in a small
    state-and-failure monad whose state carries the memory together with a
    chronological log of the stores, fences, instruction-cache invalidations
    and blob look-ups it performed. *)

From Stdlib Require Import ZArith List Bool Lia ZifyBool.
From coqutil Require Import Z.bitblast.
Import ListNotations.
Local Open Scope Z_scope.

(** ** Machine integers *)

Module Int.
(** Conversions between the C++ integer types used in the file.  A value
    is a [Z]; the wrap-around of a conversion is written out. *)
Definition uint32 (x : Z) : Z := x mod 2 ^ 32.
Definition uint64 (x : Z) : Z := x mod 2 ^ 64.
Definition signed (w : Z) (x : Z) : Z :=
  let u := x mod 2 ^ w in if u <? 2 ^ (w - 1) then u else u - 2 ^ w.
Definition int32 (x : Z) : Z := signed 32 x.
Definition int64 (x : Z) : Z := signed 64 x.
(** [intptr_t] and [address] are 64 bits wide on this platform. *)
Definition intptr (x : Z) : Z := int64 x.
Definition ptr (x : Z) : Z := uint64 x.
End Int.

Definition address := Z.

(** [nullptr] and [(address) -1]. *)
Definition nullptr : address := 0.
Definition minus_one : address := Int.ptr (-1).

(** ** Byte-addressed memory *)

Module Mem.
Definition memory := address -> Z.

Definition upd (m : memory) (a : address) (b : Z) : memory :=
  fun i => if i =? a then b else m i.

(** Little-endian access to [n] consecutive bytes. *)
Fixpoint load (n : nat) (m : memory) (a : address) : Z :=
  match n with
  | O => 0
  | S k => (m a) mod 256 + 256 * load k m (a + 1)
  end.

Fixpoint store (n : nat) (m : memory) (a : address) (v : Z) : memory :=
  match n with
  | O => m
  | S k => store k (upd m a (v mod 256)) (a + 1) (v / 256)
  end.

Definition load8 := load 1.
Definition load32 := load 4.
Definition load64 := load 8.
Definition store32 := store 4.

(** Two memories agree on the [n] bytes starting at [a]. *)
Definition agree (m m' : memory) (a : address) (n : Z) : Prop :=
  forall i, a <= i < a + n -> m i = m' i.

(** The byte ranges [a, a+n) and [b, b+k) do not overlap. *)
Definition disjoint (a n b k : Z) : Prop := a + n <= b \/ b + k <= a.
End Mem.
Import Mem.

(** ** What an operation does besides returning: the event log *)

Inductive event : Type :=
| EvStore (a : address) (size : Z) (v : Z)
(** a store of [size] bytes through a pointer *)
| EvPatchInstruction (pc : address) (target : address)
(** [MacroAssembler::pd_patch_instruction(pc, target)] *)
| EvInvalidate (a : address) (len : Z)
(** [ICache::invalidate_range(a, len)] or [invalidate_word(a)] *)
| EvRelease
(** [OrderAccess::release()] *)
| EvFindBlob (a : address)
(** [CodeCache::find_blob(a)] *).

Record state : Type := mkState { mem : memory; log : list event }.

(** How a call can end without returning. *)
Inductive failure : Type :=
| AssertionFailure      (** [assert(...)] in a build with [ASSERT] *)
| GuaranteeFailure      (** [guarantee(...)] *)
| NullDereference       (** a member call through a null blob pointer *)
| FatalError            (** [fatal(...)] *)
| UnimplementedCall     (** [Unimplemented()] *)
| ShouldNotCall         (** [ShouldNotCallThis()] *).

Inductive outcome (A : Type) : Type :=
| Done (a : A) (s : state)
| Abort (f : failure) (s : state).
Arguments Done {A} a s.
Arguments Abort {A} f s.

Definition M (A : Type) : Type := state -> outcome A.

Definition ret {A} (a : A) : M A := fun s => Done a s.
Definition bind {A B} (c : M A) (k : A -> M B) : M B :=
  fun s => match c s with
           | Done a s' => k a s'
           | Abort f s' => Abort f s'
           end.
Definition abort {A} (f : failure) : M A := fun s => Abort f s.
Definition emit (e : event) : M unit :=
  fun s => Done tt (mkState (mem s) (log s ++ [e])).
Definition read {A} (f : memory -> A) : M A := fun s => Done (f (mem s)) s.
Definition write (f : memory -> memory) : M unit :=
  fun s => Done tt (mkState (f (mem s)) (log s)).

Declare Scope monad_scope.
Delimit Scope monad_scope with monad.
Notation "x <- c ;; k" := (bind c (fun x => k))
  (at level 61, c at next level, right associativity) : monad_scope.
Notation "c ;; k" := (bind c (fun _ => k))
  (at level 61, right associativity) : monad_scope.
Local Open Scope monad_scope.

(** A store through a pointer to an [n]-byte integer: the value is converted
    to that type, its bytes are written and the store is logged. *)
Definition store_at (n : nat) (a : address) (v : Z) : M unit :=
  let v := v mod 2 ^ (8 * Z.of_nat n) in
  write (fun m => store n m a v) ;;
  emit (EvStore a (Z.of_nat n) v).

(** The memory and the log an operation ends with, whether it returned or not. *)
Definition final {A} (o : outcome A) : state :=
  match o with Done _ s => s | Abort _ s => s end.

(** ** Instruction_aarch64: bit-field access to an instruction word *)

Module Instruction_aarch64.
(** Modelled from the spec: the field-extraction utility parameterized by
    (high-bit, low-bit) of the absent [assembler_aarch64.hpp]; [extract]
    reads the bits [msb..lsb] of a 32-bit word. *)
Definition extract (val : Z) (msb lsb : Z) : Z :=
  Z.land (Z.shiftr val lsb) (Z.ones (msb - lsb + 1)).

(** Modelled from the spec: [patch] of the absent [assembler_aarch64.hpp]
    rewrites the field [msb..lsb] of the instruction word at [a] in place;
    a value too wide for the field is a [guarantee] failure. *)
Definition patch (a : address) (msb lsb : Z) (val : Z) : M unit :=
  let nbits := msb - lsb + 1 in
  if negb (val <? 2 ^ nbits) then abort GuaranteeFailure
  else
    target <- read (fun m => load32 m a) ;;
    let mask := Z.shiftl (Z.ones nbits) lsb in
    let target := Z.lor (Z.ldiff target mask) (Int.uint32 (Z.shiftl val lsb)) in
    store_at 4 a target.
End Instruction_aarch64.

(** ** The collaborators declared outside the file

    The headers the file includes are not part of the sources at hand.  What
    the operations use from them is gathered in one record, so that every
    definition below follows the code of [nativeInst_aarch64.cpp] and leaves
    the header's choice open. *)

(** Modelled from the spec: the kinds of relocation record the file tells
    apart, "object reference", "type-metadata reference", and any other. *)
Inductive relocType : Type := oop_type | metadata_type | other_reloc_type.

(** Modelled from the spec: a relocation record yields a settable
    pointer-sized reference slot.  One record of a [RelocIterator]: its
    [type()] and the address returned by [oop_reloc()->oop_addr()],
    respectively [metadata_reloc()->metadata_addr()]. *)
Record relocation : Type := mkReloc { reloc_type : relocType; reloc_slot : address }.

(** Modelled from the spec: what the file consumes from a compiled unit, the
    test for its stub region, the trampoline reserved for a call address and
    the relocation records overlapping an address range ([nmethod.hpp] and
    [relocInfo.hpp] are absent). *)
Record nmethod : Type := mkNmethod {
  (** [nm->stub_contains(a)] *)
  stub_contains : address -> bool;
  (** [trampoline_stub_Relocation::get_trampoline_for(call, nm)], [nullptr] if none *)
  get_trampoline_for : address -> address;
  (** the records [RelocIterator iter(nm, begin, limit)] yields, in order *)
  relocs_in : address -> address -> list relocation
}.

(** Modelled from the spec: a blob of the code cache is a compiled unit or
    something else. *)
Inductive CodeBlob : Type := Blob_nmethod (nm : nmethod) | Blob_other.

(** The build flavour and the declarations of the absent headers, as
    parameters of the operations. *)
Record platform : Type := mkPlatform {
  (** the build defines [ASSERT] (a debug build) *)
  ASSERT : bool;
  (** [CodeCache::find_blob], [None] for [nullptr] *)
  find_blob : address -> option CodeBlob;
  (** [CodeCache_lock->is_locked() || SafepointSynchronize::is_at_safepoint()
      || CompiledICLocker::is_safe(a)] *)
  patching_is_safe : address -> bool;
  (** [Assembler::reachable_from_branch_at(branch, target)] *)
  reachable_from_branch_at : address -> address -> bool;
  (** the displacement [NativeCall::displacement()] reads out of the call word *)
  decode_displacement : Z -> Z;
  (** the call word [NativeCall::set_destination] writes for a byte distance *)
  encode_call : Z -> Z;
  (** [NativeCall::is_call_at], on the instruction word *)
  is_call_insn : Z -> bool;
  (** [NativeInstruction::is_blr], on the instruction word *)
  is_blr_insn : Z -> bool;
  (** [NativeInstruction::maybe_cpool_ref], on the instruction word *)
  maybe_cpool_ref_insn : Z -> bool;
  (** [is_NativeCallTrampolineStub_at] *)
  is_NativeCallTrampolineStub_at : memory -> address -> bool;
  (** [NativeCallTrampolineStub::data_offset] *)
  data_offset : Z;
  (** [MacroAssembler::target_addr_for_insn] and [..._or_null] *)
  target_addr_for_insn : memory -> address -> address;
  target_addr_for_insn_or_null : memory -> address -> address;
  (** [MacroAssembler::pd_patch_instruction(pc, target)] *)
  pd_patch_instruction : memory -> address -> address -> memory;
  (** [NativeMovConstReg::instruction_size] and
      [NativeMovConstReg::next_instruction_address()] *)
  MovConstReg_instruction_size : Z;
  MovConstReg_next_instruction_address : memory -> address -> address
}.

(** ** NativeInstruction *)

Module NativeInstruction.
(** Modelled from the spec: an instruction word is a 32-bit fixed-width
    value; [instruction_size] of the absent [nativeInst_aarch64.hpp]. *)
Definition instruction_size : Z := 4.

Definition addr_at (this : address) (offset : Z) : address := this + offset.
Definition instruction_address (this : address) : address := addr_at this 0.
Definition uint_at (this : address) (offset : Z) : M Z :=
  read (fun m => load32 m (addr_at this offset)).
Definition int_at (this : address) (offset : Z) : M Z :=
  read (fun m => Int.int32 (load32 m (addr_at this offset))).

(** [assert(c, msg)]: checked only where the build defines [ASSERT]. *)
Definition assert_ (P : platform) (c : bool) : M unit :=
  if ASSERT P && negb c then abort AssertionFailure else ret tt.

Definition ICache_invalidate_range (a : address) (len : Z) : M unit :=
  emit (EvInvalidate a len).
Definition ICache_invalidate_word (a : address) : M unit :=
  emit (EvInvalidate a 4).

Definition wrote (this : address) (offset : Z) : M unit :=
  ICache_invalidate_word (addr_at this offset).

Definition is_adrp_at (instr : address) : M bool :=
  insn <- read (fun m => load32 m instr) ;;
  ret (Z.land (Instruction_aarch64.extract insn 31 24) 0x9f =? 0x90).

Definition is_ldr_literal_at (instr : address) : M bool :=
  insn <- read (fun m => load32 m instr) ;;
  ret (Z.land (Instruction_aarch64.extract insn 29 24) 0x1b =? 0x18).

Definition is_ldrw_to_zr (instr : address) : M bool :=
  insn <- read (fun m => load32 m instr) ;;
  ret ((Instruction_aarch64.extract insn 31 22 =? 0x2e5)
       && (Instruction_aarch64.extract insn 4 0 =? 0x1f)).

Definition is_safepoint_poll (this : address) : M bool := is_ldrw_to_zr this.

Definition is_movz (this : address) : M bool :=
  w <- int_at this 0 ;;
  ret (Instruction_aarch64.extract (Int.uint32 w) 30 23 =? 0xa5).

Definition is_movk (this : address) : M bool :=
  w <- int_at this 0 ;;
  ret (Instruction_aarch64.extract (Int.uint32 w) 30 23 =? 0xe5).

Definition is_stop (this : address) : M bool :=
  w <- uint_at this 0 ;; ret (w =? 0xd4bbd5c1).

Section WithPlatform.
Variable P : platform.

(** [is_blr] and [maybe_cpool_ref] are declared in the absent header: each
    classifies the instruction word at the address, by a test that is the
    platform's. *)
Definition is_blr (this : address) : M bool :=
  w <- uint_at this 0 ;; ret (is_blr_insn P w).

Definition maybe_cpool_ref (instr : address) : M bool :=
  insn <- read (fun m => load32 m instr) ;; ret (maybe_cpool_ref_insn P insn).

Definition is_general_jump (this : address) : M bool :=
  b0 <- is_movz this ;;
  if b0 then
    let inst1 := addr_at this (instruction_size * 1) in
    b1 <- is_movk inst1 ;;
    if b1 then
      let inst2 := addr_at this (instruction_size * 2) in
      b2 <- is_movk inst2 ;;
      if b2 then
        let inst3 := addr_at this (instruction_size * 3) in
        b3 <- is_blr inst3 ;;
        if b3 then ret true else ret false
      else ret false
    else ret false
  else ret false.
End WithPlatform.
End NativeInstruction.
Import NativeInstruction.

(** ** CodeCache and blobs *)

Section CodeCache.
Variable P : platform.

Definition CodeCache_find_blob (a : address) : M (option CodeBlob) :=
  emit (EvFindBlob a) ;; ret (find_blob P a).

Definition is_nmethod (cb : CodeBlob) : bool :=
  match cb with Blob_nmethod _ => true | Blob_other => false end.

(** [cb->as_nmethod()]: a member call through [nullptr] cannot go on, and
    neither can the cast of a blob that is no nmethod. *)
Definition as_nmethod (cb : option CodeBlob) : M nmethod :=
  match cb with
  | None => abort NullDereference
  | Some (Blob_nmethod nm) => ret nm
  | Some Blob_other => abort (if ASSERT P then AssertionFailure else FatalError)
  end.

(** [cb->as_nmethod_or_null()] *)
Definition as_nmethod_or_null (cb : option CodeBlob) : M (option nmethod) :=
  match cb with
  | None => abort NullDereference
  | Some (Blob_nmethod nm) => ret (Some nm)
  | Some Blob_other => ret None
  end.
End CodeCache.

(** ** NativeCallTrampolineStub *)

Module NativeCallTrampolineStub.
Section WithPlatform.
Variable P : platform.

Definition ptr_at (this : address) (offset : Z) : M address :=
  read (fun m => load64 m (addr_at this offset)).
Definition set_ptr_at (this : address) (offset : Z) (p : address) : M unit :=
  store_at 8 (addr_at this offset) p.

Definition destination (this : address) : M address :=
  ptr_at this (data_offset P).

Definition set_destination (this : address) (new_destination : address) : M unit :=
  set_ptr_at this (data_offset P) new_destination ;;
  emit EvRelease.
End WithPlatform.
End NativeCallTrampolineStub.

(** ** NativeCall *)

Module NativeCall.
(** Modelled from the spec: a call site is a single relative
    branch-with-link instruction word; [instruction_size] and
    [displacement_offset] of the absent [nativeInst_aarch64.hpp]. *)
Definition instruction_size : Z := 4.
Definition displacement_offset : Z := 0.

Section WithPlatform.
Variable P : platform.

(** Modelled from the spec: the displacement is the signed offset encoded
    in the call word's immediate field ([displacement()] of the absent
    header); the decoding itself is the platform's. *)
Definition displacement (this : address) : M Z :=
  w <- int_at this displacement_offset ;;
  ret (decode_displacement P (Int.uint32 w)).

(** Modelled from the spec: rewriting the call replaces its one
    instruction word ([set_destination] of the absent header). *)
Definition set_destination (this : address) (dest : address) : M unit :=
  store_at 4 (addr_at this displacement_offset)
           (encode_call P (dest - instruction_address this)).

Definition is_call_at (a : address) : M bool :=
  w <- uint_at a 0 ;; ret (is_call_insn P w).

Definition verify (this : address) : M unit :=
  b <- is_call_at this ;; assert_ P b.

Definition destination (this : address) : M address :=
  let addr := instruction_address this in
  d <- displacement this ;;
  let destination := addr + d in
  if destination =? addr then ret destination
  else
    cb <- CodeCache_find_blob P addr ;;
    assert_ P (match cb with Some b => is_nmethod b | None => false end) ;;
    nm <- as_nmethod P cb ;;
    is_stub <- read (fun m => is_NativeCallTrampolineStub_at P m destination) ;;
    if stub_contains nm destination && is_stub then
      let trampoline_stub_addr := destination in
      NativeCallTrampolineStub.destination P trampoline_stub_addr
    else ret destination.

Definition get_trampoline (this : address) : M address :=
  let call_addr := instruction_address this in
  code <- CodeCache_find_blob P call_addr ;;
  assert_ P (match code with Some b => is_nmethod b | None => false end) ;;
  nm <- as_nmethod P code ;;
  d <- displacement this ;;
  let bl_destination := call_addr + d in
  is_stub <- read (fun m => is_NativeCallTrampolineStub_at P m bl_destination) ;;
  if stub_contains nm bl_destination && is_stub then ret bl_destination
  else ret (get_trampoline_for nm call_addr).

Definition set_destination_mt_safe (this : address) (dest : address) : M unit :=
  assert_ P (patching_is_safe P (addr_at this 0)) ;;
  let addr_call := addr_at this 0 in
  let reachable := reachable_from_branch_at P addr_call dest in
  is_call <- is_call_at addr_call ;;
  assert_ P is_call ;;
  trampoline_stub_addr <- get_trampoline this ;;
  (if negb (trampoline_stub_addr =? nullptr) then
     chained <- read (fun m => is_NativeCallTrampolineStub_at P m dest) ;;
     assert_ P (negb chained) ;;
     NativeCallTrampolineStub.set_destination P trampoline_stub_addr dest
   else ret tt) ;;
  (if reachable then set_destination this dest
   else
     assert_ P (negb (trampoline_stub_addr =? nullptr)) ;;
     set_destination this trampoline_stub_addr) ;;
  ICache_invalidate_range addr_call instruction_size.

Definition insert (code_pos entry : address) : M unit := abort UnimplementedCall.
End WithPlatform.
End NativeCall.

(** ** MacroAssembler *)

Section MacroAssembler.
Variable P : platform.

Definition MacroAssembler_target_addr_for_insn (pc : address) : M address :=
  read (fun m => target_addr_for_insn P m pc).
Definition MacroAssembler_target_addr_for_insn_or_null (pc : address) : M address :=
  read (fun m => target_addr_for_insn_or_null P m pc).
Definition MacroAssembler_pd_patch_instruction (pc target : address) : M unit :=
  write (fun m => pd_patch_instruction P m pc target) ;;
  emit (EvPatchInstruction pc target).
End MacroAssembler.

(** ** NativeMovConstReg *)

Module NativeMovConstReg.
Section WithPlatform.
Variable P : platform.

Definition next_instruction_address (this : address) : M address :=
  read (fun m => MovConstReg_next_instruction_address P m this).

Definition instruction_size : Z := MovConstReg_instruction_size P.

Definition verify (this : address) : M unit :=
  b0 <- is_movz (instruction_address this) ;;
  b1 <- is_adrp_at (instruction_address this) ;;
  b2 <- is_ldr_literal_at (instruction_address this) ;;
  if negb (b0 || b1 || b2) then abort FatalError else ret tt.

Definition data (this : address) : M Z :=
  addr <- MacroAssembler_target_addr_for_insn P (instruction_address this) ;;
  cpool <- maybe_cpool_ref P (instruction_address this) ;;
  if cpool then
    v <- read (fun m => load64 m addr) ;; ret (Int.intptr v)
  else ret (Int.intptr addr).

(** The [while (iter.next())] loop over the relocation records. *)
Fixpoint patch_first_reloc (x : Z) (iter : list relocation) : M unit :=
  match iter with
  | [] => ret tt
  | r :: rest =>
      match reloc_type r with
      | oop_type => store_at 8 (reloc_slot r) x
      | metadata_type => store_at 8 (reloc_slot r) x
      | other_reloc_type => patch_first_reloc x rest
      end
  end.

Definition set_data (this : address) (x : Z) : M unit :=
  cpool <- maybe_cpool_ref P (instruction_address this) ;;
  (if cpool then
     addr <- MacroAssembler_target_addr_for_insn P (instruction_address this) ;;
     store_at 8 addr x
   else
     MacroAssembler_pd_patch_instruction P (instruction_address this) (Int.ptr x) ;;
     ICache_invalidate_range (instruction_address this) instruction_size) ;;
  cb <- CodeCache_find_blob P (instruction_address this) ;;
  nm <- as_nmethod_or_null cb ;;
  match nm with
  | Some nm =>
      limit <- next_instruction_address this ;;
      patch_first_reloc x (relocs_in nm (instruction_address this) limit)
  | None => ret tt
  end.
End WithPlatform.
End NativeMovConstReg.

(** ** NativeMovRegMem *)

Module NativeMovRegMem.
(** Modelled from the spec: a memory-access site is one load/store
    instruction word; [instruction_size] of the absent header. *)
Definition instruction_size : Z := 4.

Section WithPlatform.
Variable P : platform.

Definition offset (this : address) : M Z :=
  let pc := instruction_address this in
  insn <- read (fun m => load32 m pc) ;;
  if Instruction_aarch64.extract insn 28 24 =? 0x10 then
    addr <- MacroAssembler_target_addr_for_insn P pc ;;
    (* [*addr] with [addr] an [unsigned char*]: one byte *)
    b <- read (fun m => load8 m addr) ;;
    ret b
  else
    a <- MacroAssembler_target_addr_for_insn P (instruction_address this) ;;
    ret (Int.int32 (Int.intptr a)).

Definition set_offset (this : address) (x : Z) : M unit :=
  let pc := instruction_address this in
  cpool <- maybe_cpool_ref P pc ;;
  if cpool then
    addr <- MacroAssembler_target_addr_for_insn P pc ;;
    (* [*(int64_t* )addr = x] *)
    store_at 8 addr x
  else
    MacroAssembler_pd_patch_instruction P pc (Int.ptr (Int.intptr x)) ;;
    ICache_invalidate_range (instruction_address this) instruction_size.
End WithPlatform.
End NativeMovRegMem.

(** ** NativeJump and NativeGeneralJump *)

Module NativeJump.
(** Modelled from the spec: a direct jump site is one relative branch
    instruction word; [instruction_size] of the absent header. *)
Definition instruction_size : Z := 4.

Section WithPlatform.
Variable P : platform.

Definition jump_destination (this : address) : M address :=
  dest <- MacroAssembler_target_addr_for_insn_or_null P (instruction_address this) ;;
  if (dest =? this) || (dest =? nullptr) then ret minus_one else ret dest.

Definition set_jump_destination (this : address) (dest : address) : M unit :=
  let dest := if dest =? minus_one then instruction_address this else dest in
  MacroAssembler_pd_patch_instruction P (instruction_address this) dest ;;
  ICache_invalidate_range (instruction_address this) instruction_size.
End WithPlatform.
End NativeJump.

Module NativeGeneralJump.
Section WithPlatform.
Variable P : platform.

Definition jump_destination (this : address) : M address :=
  let move := instruction_address this in
  d <- NativeMovConstReg.data P move ;;
  let dest := Int.ptr d in
  if (dest =? this) || (dest =? nullptr) then ret minus_one else ret dest.

Definition set_jump_destination (this : address) (dest : address) : M unit :=
  let move := instruction_address this in
  let dest := if dest =? minus_one then instruction_address this else dest in
  NativeMovConstReg.set_data P move (Int.intptr dest).

Definition replace_mt_safe (instr_addr code_buffer : address) : M unit :=
  abort ShouldNotCall.
End WithPlatform.
End NativeGeneralJump.

(** ** Trap instructions *)

Module NativeIllegalInstruction.
(** dcps1 #0xdead *)
Definition insert (code_pos : address) : M unit :=
  store_at 4 code_pos 0xd4bbd5a1.
End NativeIllegalInstruction.

Module NativeDeoptInstruction.
Definition insert (code_pos : address) : M unit :=
  let insn := 0xd4ade001 in
  store_at 4 code_pos insn ;;
  ICache_invalidate_range code_pos 4.
End NativeDeoptInstruction.

(** ** NativePostCallNop *)

Module NativePostCallNop.
Definition is_movk_to_zr (insn : Z) : bool :=
  Z.land insn 0xffe0001f =? 0xf280001f.

Definition make_deopt (this : address) : M unit :=
  NativeDeoptInstruction.insert (addr_at this 0).

Section WithPlatform.
Variable P : platform.

Definition patch (this : address) (oopmap_slot cb_offset : Z) : M bool :=
  if negb (Z.land oopmap_slot 0xff =? oopmap_slot)
     || negb (Z.land cb_offset 0xffffff =? cb_offset)
  then ret false
  else
    let data := Z.lor (Int.uint32 (Z.shiftl (Int.uint32 oopmap_slot) 24))
                      (Int.uint32 cb_offset) in
    (if ASSERT P then
       assert_ P (negb (data =? 0)) ;;
       insn1 <- uint_at this 4 ;;
       insn2 <- uint_at this 8 ;;
       assert_ P (is_movk_to_zr insn1 && is_movk_to_zr insn2)
     else ret tt) ;;
    let lo := Z.land data 0xffff in
    let hi := Z.shiftr data 16 in
    Instruction_aarch64.patch (addr_at this 4) 20 5 lo ;;
    Instruction_aarch64.patch (addr_at this 8) 20 5 hi ;;
    ret true.
End WithPlatform.

(** Modelled from the spec: the decoding of the post-call metadata, which
    the file at hand does not contain.  The immediate fields of the two
    placeholder instructions are the low and the high half of a 32-bit
    value laid out as bits[31:24] = slot, bits[23:0] = offset. *)
Definition packed_data (this : address) : M Z :=
  insn1 <- uint_at this 4 ;;
  insn2 <- uint_at this 8 ;;
  let lo := Instruction_aarch64.extract insn1 20 5 in
  let hi := Instruction_aarch64.extract insn2 20 5 in
  ret (Z.lor (Z.shiftl hi 16) lo).
Definition slot_of (data : Z) : Z := Z.land (Z.shiftr data 24) 0xff.
Definition offset_of (data : Z) : Z := Z.land data 0xffffff.
End NativePostCallNop.

(** ** A sample platform

    One concrete choice for every collaborator, following the A64 encodings
    of the instruction templates involved, on which the operations can be run
    on concrete code memory.  Nothing above depends on it. *)

Module Sample.
Definition M128 : Z := 128 * 1024 * 1024.

(** [B]/[BL]: a signed 26-bit word displacement in bits [25:0]. *)
Definition decode_disp26 (w : Z) : Z := Int.signed 26 w * 4.
Definition encode_bl (dist : Z) : Z :=
  Z.lor (Z.shiftl 0x25 26) (Z.land (Z.shiftr (Int.int32 dist) 2) (Z.ones 26)).
Definition is_bl (w : Z) : bool := Z.shiftr w 26 =? 0x25.
Definition is_b (w : Z) : bool := Z.shiftr w 26 =? 0x05.
Definition is_blr_or_br (w : Z) : bool := Z.land w 0xff9ffc1f =? 0xd61f0000.
Definition is_movz_insn (w : Z) : bool :=
  Instruction_aarch64.extract w 30 23 =? 0xa5.
Definition is_adrp_insn (w : Z) : bool :=
  Z.land (Instruction_aarch64.extract w 31 24) 0x9f =? 0x90.
Definition is_ldr_literal_insn (w : Z) : bool :=
  Z.land (Instruction_aarch64.extract w 29 24) 0x1b =? 0x18.
Definition is_ldrw_to_zr_insn (w : Z) : bool :=
  (Instruction_aarch64.extract w 31 22 =? 0x2e5)
  && (Instruction_aarch64.extract w 4 0 =? 0x1f).

(** Rewriting the field [msb..lsb] of a word. *)
Definition set_field (w msb lsb val : Z) : Z :=
  Z.lor (Z.ldiff w (Z.shiftl (Z.ones (msb - lsb + 1)) lsb))
        (Z.shiftl (Z.land val (Z.ones (msb - lsb + 1))) lsb).
Definition imm16 (w : Z) : Z := Instruction_aarch64.extract w 20 5.

(** The target of the templates the sample knows: a relative branch, a
    48-bit [movz; movk; movk] constant, and the page an [adrp] names. *)
Definition target_addr (m : memory) (pc : address) : address :=
  let w := load32 m pc in
  if is_b w || is_bl w then pc + decode_disp26 w
  else if is_movz_insn w then
    imm16 w + Z.shiftl (imm16 (load32 m (pc + 4))) 16
            + Z.shiftl (imm16 (load32 m (pc + 8))) 32
  else if is_adrp_insn w then
    let imm := Z.lor (Z.shiftl (Int.signed 19 (Z.shiftr w 5)) 2)
                     (Instruction_aarch64.extract w 30 29) in
    Z.shiftl (Z.shiftr pc 12) 12 + Z.shiftl imm 12
  else 0.

Definition target_addr_or_null (m : memory) (pc : address) : address :=
  if is_ldrw_to_zr_insn (load32 m pc) then nullptr else target_addr m pc.

Definition patch_insn (m : memory) (pc target : address) : memory :=
  let w := load32 m pc in
  if is_b w || is_bl w then
    store32 m pc (set_field w 25 0 (Z.shiftr (target - pc) 2))
  else if is_movz_insn w then
    let m1 := store32 m pc (set_field w 20 5 target) in
    let m2 := store32 m1 (pc + 4)
                (set_field (load32 m1 (pc + 4)) 20 5 (Z.shiftr target 16)) in
    store32 m2 (pc + 8) (set_field (load32 m2 (pc + 8)) 20 5 (Z.shiftr target 32))
  else m.

Definition stub_prologue (m : memory) (a : address) : bool :=
  (load32 m a =? 0x58000048) && (load32 m (a + 4) =? 0xd61f0100).

Definition next_insn (m : memory) (a : address) : address :=
  let w := load32 m a in
  if is_movz_insn w then a + 12 else if is_adrp_insn w then a + 8 else a + 4.

(** One compiled unit occupying [0x10000000, 0x10010000), its stub region being
    [0x10008000, 0x10010000), with a trampoline reserved at [0x10008000] for the call
    at [0x10000000] and one at [0x10008020] for the call at [0x10000040]; an
    object-reference record on the constant load at [0x10000100] whose slot is
    at [0x1000c000], preceded by a record of another kind and followed by a
    type-metadata record with its slot at [0x1000c008]. *)
Definition unit_relocs (b l : address) : list relocation :=
  if (b <=? 0x10000100) && (0x10000100 <? l)
  then [mkReloc other_reloc_type 0; mkReloc oop_type 0x1000c000;
        mkReloc metadata_type 0x1000c008]
  else [].
Definition unit_nm : nmethod :=
  mkNmethod (fun a => (0x10008000 <=? a) && (a <? 0x10010000))
            (fun call => if call =? 0x10000000 then 0x10008000
                         else if call =? 0x10000040 then 0x10008020 else nullptr)
            unit_relocs.
Definition blob_at (a : address) : option CodeBlob :=
  if (0x10000000 <=? a) && (a <? 0x10010000) then Some (Blob_nmethod unit_nm) else None.

Definition plat (debug : bool) : platform :=
  mkPlatform debug blob_at (fun _ => true)
    (fun b t => Z.abs (t - b) <? M128)
    decode_disp26 encode_bl is_bl is_blr_or_br
    (fun w => is_adrp_insn w || is_ldr_literal_insn w)
    stub_prologue 8 target_addr target_addr_or_null patch_insn
    12 next_insn.

(** Code memory given as a list of (address, 32-bit word), zero elsewhere. *)
Fixpoint words (l : list (address * Z)) : memory :=
  match l with
  | [] => fun _ => 0
  | (a, w) :: rest => store32 (words rest) a w
  end.
Definition start (l : list (address * Z)) : state := mkState (words l) [].

Definition nop : Z := 0xd503201f.
Definition movk_zr : Z := 0xf280001f.
(** [movz x8, #0], [movk x8, #0, lsl #16], [movk x8, #0, lsl #32], [br x8]. *)
Definition movz_x8 : Z := 0xd2800008.
Definition movk_x8_16 : Z := 0xf2a00008.
Definition movk_x8_32 : Z := 0xf2c00008.
Definition br_x8 : Z := 0xd61f0100.
(** The trampoline prologue [ldr x8, L; br x8], [bl .], [b .], and [adrp x0]
    of the page after the current one. *)
Definition ldr_x8_L : Z := 0x58000048.
Definition bl_self : Z := 0x94000000.
Definition b_self : Z := 0x14000000.
Definition adrp_x0 : Z := 0xb0000000.

(** A destination no branch at the unit can reach. *)
Definition far : address := 0x4000000000.
Definition far2 : address := 0x5000000000.
(** The call at [0x10000000] branching to its trampoline at [0x10008000],
    whose slot holds [far]. *)
Definition trampolined_call : list (address * Z) :=
  [(0x10000000, 0x94002000);
   (0x10008000, ldr_x8_L); (0x10008004, br_x8);
   (0x10008008, 0); (0x1000800c, 0x40)].
(** Two calls whose word encodes the displacement -128M, which the branch
    range excludes: the call at [0x10000040], with a trampoline reserved at
    [0x10008020], and the call at [0x10000080], which has none. *)
Definition edge_calls : list (address * Z) :=
  [(0x10000040, 0x96000000); (0x10000080, 0x96000000);
   (0x10008020, ldr_x8_L); (0x10008024, br_x8)].
(** The general jump [movz; movk; movk; br] at [0x10000100], whose constant
    load carries the relocation records of [unit_relocs]; the direct jump
    [b .+0x40] at [0x10000200]; and an [adrp x0] at [0x10000300], whose
    target is the page [0x10001000]. *)
Definition jumps_and_loads : list (address * Z) :=
  [(0x10000100, movz_x8); (0x10000104, movk_x8_16); (0x10000108, movk_x8_32);
   (0x1000010c, br_x8); (0x10000200, 0x14000010); (0x10000300, adrp_x0)].
End Sample.

(** ** Vocabulary of the statements *)

(** The state in which the instruction word at [a] has been replaced by [w]. *)
Definition poke32 (s : state) (a : address) (w : Z) : state :=
  mkState (store32 (mem s) a w) (log s).

(** The four classifications [is_general_jump] asks for, in order. *)
Definition general_jump_classifiers (P : platform) (this : address) : list (M bool) :=
  [ is_movz this;
    is_movk (addr_at this 4);
    is_movk (addr_at this 8);
    is_blr P (addr_at this 12) ].

(** The events an operation appended to the log. *)
Definition appended {A} (s : state) (o : outcome A) (evs : list event) : Prop :=
  log (final o) = log s ++ evs.

(** The value an operation returned, if it returned. *)
Definition returned {A} (o : outcome A) : option A :=
  match o with Done a _ => Some a | Abort _ _ => None end.
Definition aborted {A} (o : outcome A) : option failure :=
  match o with Done _ _ => None | Abort f _ => Some f end.

Definition is_invalidate (e : event) : bool :=
  match e with EvInvalidate _ _ => true | _ => false end.
Definition is_patch (e : event) : bool :=
  match e with EvPatchInstruction _ _ => true | _ => false end.
Definition is_find_blob (e : event) : bool :=
  match e with EvFindBlob _ => true | _ => false end.

(** The memory effect of a logged event, and of a sequence of them. *)
Definition apply_event (P : platform) (m : memory) (e : event) : memory :=
  match e with
  | EvStore a n v => store (Z.to_nat n) m a v
  | EvPatchInstruction pc target => pd_patch_instruction P m pc target
  | _ => m
  end.
Definition replay (P : platform) (m : memory) (evs : list event) : memory :=
  fold_left (apply_event P) evs m.

(** The trampoline [get_trampoline()] finds for the call at [this]. *)
Definition trampoline_of (P : platform) (nm : nmethod) (m : memory) (this : address)
  : address :=
  let bl_destination := this + decode_displacement P (load32 m this) in
  if stub_contains nm bl_destination
     && is_NativeCallTrampolineStub_at P m bl_destination
  then bl_destination else get_trampoline_for nm this.

(** Recognizing a trampoline stub reads its prologue only, the bytes before
    the data slot. *)
Definition stub_recognition_local (P : platform) : Prop :=
  forall m m' a, agree m m' a (data_offset P) ->
    is_NativeCallTrampolineStub_at P m a = is_NativeCallTrampolineStub_at P m' a.

(** The layout a call site and its trampoline stub are emitted with: the stub
    is a recognized stub of the unit's stub region, the call word lies outside
    the stub, and the call word the platform writes for the stub decodes to
    the displacement of the stub. *)
Record call_layout (P : platform) (nm : nmethod) (m : memory)
       (this tramp : address) : Prop := mkCallLayout {
  cl_offset : 0 <= data_offset P;
  cl_apart : disjoint this 4 tramp (data_offset P + 8);
  cl_region : stub_contains nm tramp = true;
  cl_prologue : is_NativeCallTrampolineStub_at P m tramp = true;
  cl_local : stub_recognition_local P;
  cl_encodable :
    decode_displacement P (Int.uint32 (encode_call P (tramp - this))) = tramp - this
}.

(** What the code asserts on entry of [set_destination_mt_safe]. *)
Definition patching_preconditions (P : platform) (m : memory)
           (this dest : address) : Prop :=
  patching_is_safe P this = true /\
  is_call_insn P (load32 m this) = true /\
  is_NativeCallTrampolineStub_at P m dest = false.


(** Decoding the target of the instruction at [pc] reads the [extent] bytes
    of its template only. *)
Definition decoder_local (P : platform) (extent : Z) : Prop :=
  forall m m' pc, agree m m' pc extent ->
    target_addr_for_insn P m pc = target_addr_for_insn P m' pc.

(** A relocation record of kind object reference or type-metadata reference. *)
Definition is_reference (r : relocation) : bool :=
  match reloc_type r with
  | oop_type | metadata_type => true
  | other_reloc_type => false
  end.

(** The relocation records [set_data] iterates over at [this], the code
    memory being [m]. *)
Definition records_at (P : platform) (cb : CodeBlob) (m : memory) (this : address)
  : list relocation :=
  match cb with
  | Blob_nmethod nm =>
      relocs_in nm this (MovConstReg_next_instruction_address P m this)
  | Blob_other => []
  end.

Definition is_store (e : event) : bool :=
  match e with EvStore _ _ _ => true | _ => false end.

(** The address [set_jump_destination] patches into the site for [dest]:
    the all-ones marker stands for the site's own address. *)
Definition jump_target_written (this dest : address) : address :=
  if dest =? minus_one then this else dest.

(** What [jump_destination()] makes of a decoded target. *)
Definition jump_target_read (this target : address) : address :=
  if (target =? this) || (target =? nullptr) then minus_one else target.

(** * Properties *)

(** ** Memory *)

Section MemoryFacts.
Lemma store_spec (n : nat) : forall m a v i,
    store n m a v i =
    if (a <=? i) && (i <? a + Z.of_nat n) then (v / 256 ^ (i - a)) mod 256 else m i.
Proof.
    induction n as [|k IH]; intros m a v i.
    - simpl. replace ((a <=? i) && (i <? a + 0)) with false by lia. reflexivity.
    - cbn [store]. rewrite IH. unfold upd.
      destruct (Z.eq_dec i a) as [->|Hne].
      + rewrite Z.eqb_refl.
        replace ((a + 1 <=? a) && (a <? a + 1 + Z.of_nat k)) with false by lia.
        replace ((a <=? a) && (a <? a + Z.of_nat (S k))) with true by lia.
        rewrite Z.sub_diag. now rewrite Z.div_1_r.
      + replace (i =? a) with false by lia.
        destruct ((a + 1 <=? i) && (i <? a + 1 + Z.of_nat k)) eqn:E.
        * replace ((a <=? i) && (i <? a + Z.of_nat (S k))) with true by lia.
          rewrite Z.div_div by (try apply Z.pow_pos_nonneg; lia).
          replace (256 * 256 ^ (i - (a + 1))) with (256 ^ (i - a)); [reflexivity|].
          replace (i - a) with (Z.succ (i - (a + 1))) by lia.
          rewrite Z.pow_succ_r by lia. reflexivity.
        * replace ((a <=? i) && (i <? a + Z.of_nat (S k))) with false by lia.
          reflexivity.
Qed.

Lemma store_outside (n : nat) m a v i :
    i < a \/ a + Z.of_nat n <= i -> store n m a v i = m i.
Proof.
    intros H. rewrite store_spec.
    replace ((a <=? i) && (i <? a + Z.of_nat n)) with false by lia. reflexivity.
Qed.

Lemma load_ext (n : nat) : forall m m' a,
    agree m m' a (Z.of_nat n) -> load n m a = load n m' a.
Proof.
    induction n as [|k IH]; intros m m' a H; [reflexivity|].
    cbn [load]. rewrite (H a) by lia. f_equal. f_equal.
    apply IH. intros i Hi. apply H. lia.
Qed.

Lemma load_range (n : nat) : forall m a, 0 <= load n m a < 256 ^ Z.of_nat n.
Proof.
    induction n as [|k IH]; intros m a.
    - simpl. lia.
    - cbn [load]. specialize (IH m (a + 1)).
      pose proof (Z.mod_pos_bound (m a) 256 ltac:(lia)).
      rewrite Nat2Z.inj_succ, Z.pow_succ_r by lia. lia.
Qed.

Lemma load_of_bytes (n : nat) : forall m a v,
    (forall i, 0 <= i < Z.of_nat n -> m (a + i) = (v / 256 ^ i) mod 256) ->
    load n m a = v mod 256 ^ Z.of_nat n.
Proof.
    induction n as [|k IH]; intros m a v H.
    - simpl. now rewrite Z.mod_1_r.
    - cbn [load]. rewrite (IH m (a + 1) (v / 256)).
      + replace (m a) with (m (a + 0)) by (f_equal; lia).
        rewrite (H 0) by lia. rewrite Z.pow_0_r, Z.div_1_r, Z.mod_mod by lia.
        rewrite Nat2Z.inj_succ, Z.pow_succ_r by lia.
        rewrite Z.rem_mul_r; [reflexivity | lia | ].
        apply Z.pow_pos_nonneg; lia.
      + intros i Hi. replace (a + 1 + i) with (a + (i + 1)) by lia.
        rewrite (H (i + 1)) by lia.
        rewrite Z.div_div by (try apply Z.pow_pos_nonneg; lia).
        rewrite Z.pow_add_r by lia. now rewrite Z.pow_1_r, Z.mul_comm.
Qed.

Lemma load_store_same (n : nat) m a v :
    load n (store n m a v) a = v mod 256 ^ Z.of_nat n.
Proof.
    apply load_of_bytes. intros i Hi. rewrite store_spec.
    replace ((a <=? a + i) && (a + i <? a + Z.of_nat n)) with true by lia.
    now replace (a + i - a) with i by lia.
Qed.

Lemma load_store_disjoint (n k : nat) m a b v :
    disjoint a (Z.of_nat n) b (Z.of_nat k) ->
    load k (store n m a v) b = load k m b.
Proof.
    intros H. apply load_ext. intros i Hi. apply store_outside.
    destruct H; [right|left]; lia.
Qed.

Lemma agree_store_disjoint (n : nat) m a v b k :
    disjoint a (Z.of_nat n) b k -> agree (store n m a v) m b k.
Proof.
    intros H i Hi. apply store_outside. destruct H; [right|left]; lia.
Qed.

Lemma load32_store32 m a v : load32 (store 4 m a v) a = Int.uint32 v.
Proof. apply (load_store_same 4). Qed.

Lemma load64_store64 m a v : load64 (store 8 m a v) a = Int.uint64 v.
Proof. apply (load_store_same 8). Qed.

Lemma uint32_idem x : Int.uint32 (Int.uint32 x) = Int.uint32 x.
Proof. unfold Int.uint32. apply Z.mod_mod. lia. Qed.

Lemma uint64_idem x : Int.uint64 (Int.uint64 x) = Int.uint64 x.
Proof. unfold Int.uint64. apply Z.mod_mod. lia. Qed.

Lemma load32_range m a : 0 <= load32 m a < 2 ^ 32.
Proof. apply (load_range 4). Qed.

Lemma load64_range m a : 0 <= load64 m a < 2 ^ 64.
Proof. apply (load_range 8). Qed.

Lemma uint32_int32 w : 0 <= w < 2 ^ 32 -> Int.uint32 (Int.int32 w) = w.
Proof.
    intros H. unfold Int.uint32, Int.int32, Int.signed.
    rewrite (Z.mod_small w) by assumption.
    destruct (w <? 2 ^ (32 - 1)).
    - now apply Z.mod_small.
    - rewrite <- (Z.mod_small w (2 ^ 32)) at 2 by assumption.
      replace (w - 2 ^ 32) with (w + (-1) * 2 ^ 32) by lia.
      apply Z.mod_add. lia.
Qed.

Lemma ptr_intptr a : 0 <= a < 2 ^ 64 -> Int.ptr (Int.intptr a) = a.
Proof.
    intros H. unfold Int.ptr, Int.uint64, Int.intptr, Int.int64, Int.signed.
    rewrite (Z.mod_small a) by assumption.
    destruct (a <? 2 ^ (64 - 1)).
    - now apply Z.mod_small.
    - rewrite <- (Z.mod_small a (2 ^ 64)) at 2 by assumption.
      replace (a - 2 ^ 64) with (a + (-1) * 2 ^ 64) by lia.
      apply Z.mod_add. lia.
Qed.

Lemma intptr_range x : - 2 ^ 63 <= Int.intptr x < 2 ^ 63.
Proof.
  unfold Int.intptr, Int.int64, Int.signed.
  change (2 ^ (64 - 1)) with (2 ^ 63). change (2 ^ 64) with (2 * 2 ^ 63).
  set (h := 2 ^ 63). assert (0 < h) by (subst h; lia).
  pose proof (Z.mod_pos_bound x (2 * h) ltac:(lia)).
  destruct (Z.ltb_spec (x mod (2 * h)) h); lia.
Qed.

Lemma intptr_ptr x : - 2 ^ 63 <= x < 2 ^ 63 -> Int.intptr (Int.ptr x) = x.
Proof.
    intros H. unfold Int.ptr, Int.uint64, Int.intptr, Int.int64, Int.signed.
    rewrite Z.mod_mod by lia.
    change (2 ^ (64 - 1)) with (2 ^ 63).
    change (2 ^ 64) with (2 * 2 ^ 63) in *.
    set (h := 2 ^ 63) in *. assert (0 < h) by (subst h; lia).
    destruct (Z_lt_le_dec x 0) as [Hn|Hp].
    - assert (E : x mod (2 * h) = x + 2 * h).
      { symmetry. apply Z.mod_unique with (q := -1); lia. }
      rewrite E. destruct (Z.ltb_spec (x + 2 * h) h); lia.
    - rewrite Z.mod_small by lia. destruct (Z.ltb_spec x h); lia.
Qed.
End MemoryFacts.

(** ** Bit fields *)

Section BitFacts.
Lemma land_ones_fixpoint (x n : Z) : 0 <= n -> (Z.land x (Z.ones n) = x <-> 0 <= x < 2 ^ n).
Proof.
  intros Hn. rewrite Z.land_ones by assumption. split; intros H.
  - rewrite <- H. apply Z.mod_pos_bound. apply Z.pow_pos_nonneg; lia.
  - now apply Z.mod_small.
Qed.

Lemma slot_check (x : Z) : (Z.land x 0xff =? x) = true <-> 0 <= x <= 255.
Proof.
  rewrite Z.eqb_eq. pose proof (land_ones_fixpoint x 8 ltac:(lia)) as H.
  change (Z.ones 8) with 0xff in H. change (2 ^ 8) with 256 in H.
  rewrite H. lia.
Qed.

Lemma offset_check (x : Z) : (Z.land x 0xffffff =? x) = true <-> 0 <= x <= 0xFFFFFF.
Proof.
  rewrite Z.eqb_eq. pose proof (land_ones_fixpoint x 24 ltac:(lia)) as H.
  change (Z.ones 24) with 0xffffff in H. change (2 ^ 24) with 16777216 in H.
  rewrite H. lia.
Qed.

(** Reading back the immediate field [20..5] of a word whose field was
    rewritten with a 16-bit value. *)
Lemma extract_imm16_patched (t v : Z) :
  0 <= v < 2 ^ 16 ->
  Instruction_aarch64.extract
    (Int.uint32 (Z.lor (Z.ldiff t (Z.shiftl (Z.ones (20 - 5 + 1)) 5))
                       (Int.uint32 (Z.shiftl v 5)))) 20 5 = v.
Proof.
  intros H. unfold Instruction_aarch64.extract, Int.uint32.
  change (20 - 5 + 1) with 16.
  rewrite <- (Z.mod_small v (2 ^ 16)) at 2 by lia.
  rewrite <- !Z.land_ones by lia.
  Z.bitblast.
Qed.

Lemma halves_rejoin (d : Z) :
  Z.lor (Z.shiftl (Z.shiftr d 16) 16) (Z.land d (Z.ones 16)) = d.
Proof. Z.bitblast. Qed.

(** The packed 32-bit value of a slot index and a code offset. *)
Lemma packed_data_fields (slot off : Z) :
  0 <= slot <= 255 -> 0 <= off <= 0xFFFFFF ->
  let data := Z.lor (Int.uint32 (Z.shiftl (Int.uint32 slot) 24)) (Int.uint32 off) in
  0 <= data < 2 ^ 32 /\
  Z.lor (Z.shiftl (Z.shiftr data 16) 16) (Z.land data 0xffff) = data /\
  NativePostCallNop.slot_of data = slot /\
  NativePostCallNop.offset_of data = off /\
  (data = 0 <-> slot = 0 /\ off = 0).
Proof.
  intros Hs Ho. unfold Int.uint32.
  rewrite (Z.mod_small slot) by lia.
  rewrite (Z.mod_small off) by lia.
  assert (Hsh : 0 <= Z.shiftl slot 24 < 2 ^ 32).
  { rewrite Z.shiftl_mul_pow2 by lia. lia. }
  rewrite (Z.mod_small (Z.shiftl slot 24)) by assumption.
  cbv zeta. unfold NativePostCallNop.slot_of, NativePostCallNop.offset_of.
  change 0xffff with (Z.ones 16). change 0xff with (Z.ones 8).
  change 0xffffff with (Z.ones 24).
  assert (Es : slot = Z.land slot (Z.ones 8)).
  { symmetry. apply land_ones_fixpoint; lia. }
  assert (Eo : off = Z.land off (Z.ones 24)).
  { symmetry. apply land_ones_fixpoint; lia. }
  repeat split.
  - apply Z.lor_nonneg. lia.
  - assert (E : Z.lor (Z.shiftl slot 24) off
                = Z.land (Z.lor (Z.shiftl slot 24) off) (Z.ones 32)).
    { rewrite Es, Eo. Z.bitblast. }
    rewrite E, Z.land_ones by lia. apply Z.mod_pos_bound. lia.
  - apply halves_rejoin.
  - rewrite Es at 2. rewrite Eo. Z.bitblast.
  - rewrite Eo at 2. rewrite Es. Z.bitblast.
  - apply Z.lor_eq_0_iff in H. destruct H as [H1 H2].
    apply Z.shiftl_eq_0_iff in H1; lia.
  - apply Z.lor_eq_0_iff in H. tauto.
  - intros [-> ->]. reflexivity.
Qed.
End BitFacts.

(** ** Running the monad *)

Ltac mrun :=
  cbv beta iota zeta delta
    [bind ret read write emit abort store_at assert_ uint_at int_at
     ICache_invalidate_range ICache_invalidate_word addr_at instruction_address
     CodeCache_find_blob MacroAssembler_target_addr_for_insn
     MacroAssembler_target_addr_for_insn_or_null
     MacroAssembler_pd_patch_instruction maybe_cpool_ref
     as_nmethod as_nmethod_or_null is_nmethod];
  cbn [mem log final].

Lemma bind_done {A B} (c : M A) (k : A -> M B) (s s' : state) (a : A) :
  c s = Done a s' -> bind c k s = k a s'.
Proof. intros H. unfold bind. now rewrite H. Qed.

Lemma patch_imm16_runs (a v : Z) (s : state) :
  0 <= v < 2 ^ 16 ->
  let w := Z.lor (Z.ldiff (load32 (mem s) a) (Z.shiftl (Z.ones (20 - 5 + 1)) 5))
                 (Int.uint32 (Z.shiftl v 5)) in
  Instruction_aarch64.patch a 20 5 v s
  = Done tt (mkState (store 4 (mem s) a (Int.uint32 w))
                     (log s ++ [EvStore a 4 (Int.uint32 w)])).
Proof.
  intros H w. unfold Instruction_aarch64.patch.
  change (20 - 5 + 1) with 16 in *.
  replace (negb (v <? 2 ^ 16)) with false by lia.
  reflexivity.
Qed.

(** ** NativePostCallNop::patch *)

(** C10.  Whenever the slot index is outside [0,255] or the code offset is
    outside [0, 0xFFFFFF] (slot = 256, offset = 0x1000000, a negative
    value, ...), [patch] returns false and the state it returns is the one it
    was called in: no byte of the site has changed and nothing was logged. *)
Theorem patch_overflow_no_mutation (P : platform) (this slot off : Z) (s : state) :
  ~ (0 <= slot <= 255) \/ ~ (0 <= off <= 0xFFFFFF) ->
  NativePostCallNop.patch P this slot off s = Done false s.
Proof.
  intros H. unfold NativePostCallNop.patch.
  replace (negb (Z.land slot 255 =? slot) || negb (Z.land off 16777215 =? off))
    with true; [reflexivity|].
  symmetry. apply orb_true_iff.
  destruct H as [H|H]; [left|right]; apply negb_true_iff, not_true_is_false;
    [rewrite slot_check | rewrite offset_check]; exact H.
Qed.

Lemma patch_overflow_no_mutation_witness :
  let s := Sample.start [(0x10000004, Sample.movk_zr); (0x10000008, Sample.movk_zr)] in
  NativePostCallNop.patch (Sample.plat true) 0x10000000 256 5 s = Done false s /\
  NativePostCallNop.patch (Sample.plat false) 0x10000000 3 0x1000000 s = Done false s.
Proof.
  split.
  - apply (patch_overflow_no_mutation (Sample.plat true) 0x10000000 256 5). left. lia.
  - apply (patch_overflow_no_mutation (Sample.plat false) 0x10000000 3 0x1000000).
    right. lia.
Defined.

(** C3, as the code has it.  For a slot index in [0,255] and a code offset in
    [0, 0xFFFFFF], [patch] returns true and the immediate fields of the two
    placeholder instructions decode back to exactly (slot, offset), in every
    build without assertions; in a build with assertions the same holds
    provided the pair is not (0,0), whose packed value is the all-zero
    pattern, and the two instructions are movk-to-zero-register placeholders. *)
Theorem patch_packs_slot_and_offset (P : platform) (this slot off : Z) (s : state) :
  0 <= slot <= 255 -> 0 <= off <= 0xFFFFFF ->
  (ASSERT P = true ->
     (slot <> 0 \/ off <> 0) /\
     NativePostCallNop.is_movk_to_zr (load32 (mem s) (this + 4)) = true /\
     NativePostCallNop.is_movk_to_zr (load32 (mem s) (this + 8)) = true) ->
  exists s',
    NativePostCallNop.patch P this slot off s = Done true s' /\
    exists data,
      NativePostCallNop.packed_data this s' = Done data s' /\
      NativePostCallNop.slot_of data = slot /\
      NativePostCallNop.offset_of data = off.
Proof.
  intros Hs Ho Hdbg.
  destruct (packed_data_fields slot off Hs Ho) as (Hr & Hjoin & Hslot & Hoff & Hz).
  set (data := Z.lor (Int.uint32 (Z.shiftl (Int.uint32 slot) 24)) (Int.uint32 off)) in *.
  assert (Hlo : 0 <= Z.land data 0xffff < 2 ^ 16).
  { change 0xffff with (Z.ones 16). rewrite Z.land_ones by lia.
    apply Z.mod_pos_bound. lia. }
  assert (Hhi : 0 <= Z.shiftr data 16 < 2 ^ 16).
  { rewrite Z.shiftr_div_pow2 by lia. split.
    - apply Z.div_pos; lia.
    - apply Z.div_lt_upper_bound; lia. }
  unfold NativePostCallNop.patch.
  replace (negb (Z.land slot 255 =? slot) || negb (Z.land off 16777215 =? off))
    with false.
  2:{ symmetry. apply orb_false_iff. split; apply negb_false_iff;
      [apply slot_check | apply offset_check]; assumption. }
  fold data.
  assert (Hpre : (if ASSERT P
                  then assert_ P (negb (data =? 0)) ;;
                       insn1 <- uint_at this 4 ;;
                       insn2 <- uint_at this 8 ;;
                       assert_ P (NativePostCallNop.is_movk_to_zr insn1
                                  && NativePostCallNop.is_movk_to_zr insn2)
                  else ret tt) s = Done tt s).
  { destruct (ASSERT P) eqn:EA; [|reflexivity].
    destruct (Hdbg eq_refl) as (Hnz & H1 & H2).
    mrun. rewrite EA.
    replace (negb (data =? 0)) with true by (symmetry; apply negb_true_iff; lia).
    cbn [negb andb]. rewrite H1, H2. reflexivity. }
  unfold bind at 1. rewrite Hpre.
  unfold bind at 1. rewrite (patch_imm16_runs _ _ s Hlo). cbv zeta.
  unfold bind at 1. rewrite patch_imm16_runs by exact Hhi. cbv zeta.
  eexists. split; [reflexivity|].
  exists data. split.
  - unfold NativePostCallNop.packed_data. mrun.
    rewrite load32_store32.
    rewrite !(load_store_disjoint 4 4) by (unfold disjoint; simpl; lia).
    rewrite load32_store32. rewrite !uint32_idem.
    rewrite !extract_imm16_patched by assumption.
    do 2 f_equal. exact Hjoin.
  - split; assumption.
Qed.

Lemma patch_packs_slot_and_offset_witness :
  let s := Sample.start [(0x10000004, Sample.movk_zr); (0x10000008, Sample.movk_zr)] in
  exists s',
    NativePostCallNop.patch (Sample.plat true) 0x10000000 7 0x1234 s = Done true s' /\
    exists data,
      NativePostCallNop.packed_data 0x10000000 s' = Done data s' /\
      NativePostCallNop.slot_of data = 7 /\
      NativePostCallNop.offset_of data = 0x1234.
Proof.
  apply (patch_packs_slot_and_offset (Sample.plat true) 0x10000000 7 0x1234).
  - lia.
  - lia.
  - intros _. split; [left; lia|]. split; vm_compute; reflexivity.
Defined.

(** C3, as stated, fails in a build with assertions: for slot = 0 and
    offset = 0, both within their ranges, [patch] stops at
    [assert(data != 0)] and does not return true. *)
Lemma patch_zero_pair_asserts :
  let s := Sample.start [(0x10000004, Sample.movk_zr); (0x10000008, Sample.movk_zr)] in
  0 <= 0 <= 255 /\ 0 <= 0 <= 0xFFFFFF /\
  NativePostCallNop.patch (Sample.plat true) 0x10000000 0 0 s = Abort AssertionFailure s /\
  ~ (exists s', NativePostCallNop.patch (Sample.plat true) 0x10000000 0 0 s = Done true s').
Proof.
  cbv zeta. split; [lia|]. split; [lia|]. split.
  - reflexivity.
  - intros [s' H]. discriminate H.
Qed.

(** ** NativeInstruction::is_general_jump *)

Section GeneralJump.
Variable P : platform.

Lemma is_general_jump_unfold (this : address) (s : state) :
  exists b0 b1 b2 b3,
    is_movz this s = Done b0 s /\
    is_movk (this + 4) s = Done b1 s /\
    is_movk (this + 8) s = Done b2 s /\
    is_blr P (this + 12) s = Done b3 s /\
    is_general_jump P this s = Done (b0 && b1 && b2 && b3) s.
Proof.
  unfold is_general_jump, is_movz, is_movk, is_blr, NativeInstruction.instruction_size.
  mrun. change (4 * 1) with 4. change (4 * 2) with 8. change (4 * 3) with 12.
  do 4 eexists. repeat (split; [reflexivity|]).
  repeat match goal with
         | |- context [if ?b then _ else _] => destruct b; cbn [andb]
         end; reflexivity.
Qed.

Lemma is_movk_of_nop (a : address) (s : state) :
  is_movk a (poke32 s a Sample.nop) = Done false (poke32 s a Sample.nop).
Proof.
  unfold is_movk, poke32. mrun. unfold store32.
  rewrite Z.add_0_r, load32_store32. reflexivity.
Qed.
End GeneralJump.

(** C8.  [is_general_jump] only reads memory and always returns; it returns
    true exactly when the instruction words at the four consecutive
    instruction slots [n], [n+4], [n+8], [n+12] (slots n, n+1, n+2, n+3)
    classify, in order, as move-wide, move-wide-keep, move-wide-keep and
    branch-register.  Hence replacing any one word of the sequence by a word
    its slot's classification rejects makes it return false; in particular
    replacing the second move-wide-keep by a no-op does. *)
Theorem is_general_jump_exact (P : platform) (this : address) (s : state) :
  (exists b, is_general_jump P this s = Done b s) /\
  (is_general_jump P this s = Done true s <->
     is_movz this s = Done true s /\
     is_movk (this + 4) s = Done true s /\
     is_movk (this + 8) s = Done true s /\
     is_blr P (this + 12) s = Done true s) /\
  (forall (k : nat) (w : Z) (c : M bool),
     nth_error (general_jump_classifiers P this) k = Some c ->
     let s' := poke32 s (this + 4 * Z.of_nat k) w in
     c s' = Done false s' ->
     is_general_jump P this s' = Done false s') /\
  (let s' := poke32 s (this + 8) Sample.nop in
   is_general_jump P this s' = Done false s').
Proof.
  assert (Hgen : forall s0,
    (exists b, is_general_jump P this s0 = Done b s0) /\
    (is_general_jump P this s0 = Done true s0 <->
     is_movz this s0 = Done true s0 /\
     is_movk (this + 4) s0 = Done true s0 /\
     is_movk (this + 8) s0 = Done true s0 /\
     is_blr P (this + 12) s0 = Done true s0)).
  { intros s0.
    destruct (is_general_jump_unfold P this s0)
      as (b0 & b1 & b2 & b3 & H0 & H1 & H2 & H3 & H).
    rewrite H, H0, H1, H2, H3. split; [eexists; reflexivity|].
    split.
    - intros E. injection E as E.
      destruct b0, b1, b2, b3; try discriminate E; repeat split; reflexivity.
    - intros (E0 & E1 & E2 & E3).
      injection E0 as ->. injection E1 as ->. injection E2 as ->.
      injection E3 as ->. reflexivity. }
  assert (Hfalse : forall s0 c, In c (general_jump_classifiers P this) ->
                                c s0 = Done false s0 ->
                                is_general_jump P this s0 = Done false s0).
  { intros s0 c Hin Hc.
    destruct (is_general_jump_unfold P this s0)
      as (b0 & b1 & b2 & b3 & H0 & H1 & H2 & H3 & H).
    rewrite H. unfold general_jump_classifiers, addr_at in Hin.
    destruct Hin as [<-|[<-|[<-|[<-|[]]]]].
    - rewrite H0 in Hc. injection Hc as ->. reflexivity.
    - rewrite H1 in Hc. injection Hc as ->. now rewrite andb_false_r.
    - rewrite H2 in Hc. injection Hc as ->. now rewrite andb_false_r.
    - rewrite H3 in Hc. injection Hc as ->. now rewrite andb_false_r. }
  destruct (Hgen s) as [Ht Hiff].
  split; [exact Ht|]. split; [exact Hiff|]. split.
  - intros k w c Hk s' Hc. apply (Hfalse s' c); [|exact Hc].
    eapply nth_error_In; eassumption.
  - cbv zeta. apply (Hfalse _ (is_movk (addr_at this 8))).
    + unfold general_jump_classifiers. simpl. tauto.
    + apply is_movk_of_nop.
Qed.

Lemma is_general_jump_exact_witness :
  let s := Sample.start [(0x10000000, Sample.movz_x8); (0x10000004, Sample.movk_x8_16);
                         (0x10000008, Sample.movk_x8_32); (0x1000000c, Sample.br_x8)] in
  is_general_jump (Sample.plat false) 0x10000000 s = Done true s /\
  is_general_jump (Sample.plat false) 0x10000000 (poke32 s 0x10000004 Sample.nop)
  = Done false (poke32 s 0x10000004 Sample.nop).
Proof.
  intros s.
  destruct (is_general_jump_exact (Sample.plat false) 0x10000000 s)
    as (_ & Hiff & Hsub & _).
  split.
  - apply Hiff. repeat split; reflexivity.
  - apply (Hsub 1%nat Sample.nop (is_movk (addr_at 0x10000000 4))); reflexivity.
Defined.

(** ** Trap instructions *)

(** C4, evaluated on the code.  [NativeDeoptInstruction::insert] stores the
    one word 0xd4ade001 at [addr] and then invalidates the instruction cache
    over its 4 bytes; [NativeIllegalInstruction::insert] stores the one word
    0xd4bbd5a1 at [addr], which reads back as written, and does nothing else:
    it logs no instruction-cache invalidation.  The two encodings differ. *)
Theorem trap_insert_effects (addr : address) (s : state) :
  NativeDeoptInstruction.insert addr s
  = Done tt (mkState (store32 (mem s) addr 0xd4ade001)
                     (log s ++ [EvStore addr 4 0xd4ade001; EvInvalidate addr 4])) /\
  NativeIllegalInstruction.insert addr s
  = Done tt (mkState (store32 (mem s) addr 0xd4bbd5a1)
                     (log s ++ [EvStore addr 4 0xd4bbd5a1])) /\
  load32 (mem (final (NativeDeoptInstruction.insert addr s))) addr = 0xd4ade001 /\
  load32 (mem (final (NativeIllegalInstruction.insert addr s))) addr = 0xd4bbd5a1 /\
  0xd4ade001 <> 0xd4bbd5a1 /\
  (exists evs, appended s (NativeIllegalInstruction.insert addr s) evs /\
               existsb is_invalidate evs = false) /\
  (exists evs, appended s (NativeDeoptInstruction.insert addr s) evs /\
               existsb is_invalidate evs = true).
Proof.
  unfold NativeDeoptInstruction.insert, NativeIllegalInstruction.insert, appended.
  mrun. rewrite <- !app_assoc. cbn [app].
  repeat split; try reflexivity.
  - apply load32_store32.
  - apply load32_store32.
  - lia.
  - eexists. split; reflexivity.
  - eexists. split; reflexivity.
Qed.

(** ** NativeCall::destination *)

Section CallFacts.
Variable P : platform.

Lemma assert_holds (c : bool) (s : state) :
  (ASSERT P = true -> c = true) -> assert_ P c s = Done tt s.
Proof.
  intros H. unfold assert_. destruct (ASSERT P); [|reflexivity].
  rewrite (H eq_refl). reflexivity.
Qed.

Lemma displacement_runs (this : address) (s : state) :
  NativeCall.displacement P this s
  = Done (decode_displacement P (load32 (mem s) this)) s.
Proof.
  unfold NativeCall.displacement, NativeCall.displacement_offset. mrun.
  rewrite Z.add_0_r, uint32_int32 by apply load32_range. reflexivity.
Qed.

Lemma stub_destination_runs (stub : address) (s : state) :
  NativeCallTrampolineStub.destination P stub s
  = Done (load64 (mem s) (stub + data_offset P)) s.
Proof. reflexivity. Qed.

(** What [destination()] computes, as a function of the memory. *)
Lemma destination_runs (this : address) (s : state) (nm : nmethod) :
  find_blob P this = Some (Blob_nmethod nm) ->
  let target := this + decode_displacement P (load32 (mem s) this) in
  target <> this ->
  NativeCall.destination P this s
  = Done (if stub_contains nm target
             && is_NativeCallTrampolineStub_at P (mem s) target
          then load64 (mem s) (target + data_offset P) else target)
         (mkState (mem s) (log s ++ [EvFindBlob this])).
Proof.
  intros Hb target Hne. unfold NativeCall.destination.
  unfold bind at 1. rewrite displacement_runs. mrun. rewrite Z.add_0_r.
  fold target. replace (target =? this) with false by lia.
  rewrite Hb. mrun. rewrite andb_false_r. mrun.
  destruct (stub_contains nm target
            && is_NativeCallTrampolineStub_at P (mem s) target); reflexivity.
Qed.

Lemma destination_self (this : address) (s : state) :
  this + decode_displacement P (load32 (mem s) this) = this ->
  NativeCall.destination P this s = Done this s.
Proof.
  intros H. unfold NativeCall.destination.
  unfold bind at 1. rewrite displacement_runs. mrun. rewrite Z.add_0_r, H.
  now rewrite Z.eqb_refl.
Qed.
End CallFacts.

(** C5.  With [d] the displacement of the call at [this]: when [this + d] is
    the call's own address, [destination()] returns it as it is and the state
    is untouched, so no blob was looked up; otherwise, the call belonging to
    a compiled unit, it looks that unit up once and returns the destination
    stored in the trampoline at [this + d] when [this + d] lies in the unit's
    stub region and is a recognized trampoline stub, and [this + d] itself in
    all remaining cases. *)
Theorem destination_resolution (P : platform) (this : address) (s : state) (d : Z) :
  NativeCall.displacement P this s = Done d s ->
  let target := this + d in
  let s1 := mkState (mem s) (log s ++ [EvFindBlob this]) in
  (target = this ->
     NativeCall.destination P this s = Done target s /\
     existsb is_find_blob (log (final (NativeCall.destination P this s)))
     = existsb is_find_blob (log s)) /\
  (target <> this ->
   forall nm, find_blob P this = Some (Blob_nmethod nm) ->
     (stub_contains nm target = true ->
      is_NativeCallTrampolineStub_at P (mem s) target = true ->
      exists T, NativeCallTrampolineStub.destination P target s1 = Done T s1 /\
                NativeCall.destination P this s = Done T s1) /\
     (stub_contains nm target = false \/
      is_NativeCallTrampolineStub_at P (mem s) target = false ->
      NativeCall.destination P this s = Done target s1)).
Proof.
  intros Hd target s1. rewrite displacement_runs in Hd. injection Hd as Hd.
  split.
  - intros Hself. unfold target in *. rewrite <- Hd in Hself.
    rewrite (destination_self P this s Hself). rewrite <- Hd, Hself.
    split; reflexivity.
  - intros Hne nm Hb. unfold target in *. subst d.
    rewrite (destination_runs P this s nm Hb Hne). split.
    + intros H1 H2. rewrite H1, H2. cbn [andb].
      eexists. split; [apply stub_destination_runs | reflexivity].
    + intros [H|H]; rewrite H; [|rewrite andb_false_r]; reflexivity.
Qed.

Lemma destination_resolution_witness :
  let s := Sample.start Sample.trampolined_call in
  NativeCall.destination (Sample.plat true) 0x10000000 s
  = Done Sample.far (mkState (mem s) [EvFindBlob 0x10000000]) /\
  NativeCall.destination (Sample.plat true) 0x10000000
    (poke32 s 0x10000000 Sample.bl_self)
  = Done 0x10000000 (poke32 s 0x10000000 Sample.bl_self).
Proof.
  intros s. split.
  - destruct (destination_resolution (Sample.plat true) 0x10000000 s 0x8000 eq_refl)
      as [_ H].
    destruct (H ltac:(lia) Sample.unit_nm eq_refl) as [Hstub _].
    destruct (Hstub eq_refl eq_refl) as (T & HT & Hd).
    rewrite Hd. injection HT as <-. reflexivity.
  - destruct (destination_resolution (Sample.plat true) 0x10000000
                (poke32 s 0x10000000 Sample.bl_self) 0 eq_refl) as [H _].
    destruct (H eq_refl) as [Hd _]. exact Hd.
Defined.

(** ** NativeCall::set_destination_mt_safe *)

Section CallRedirection.
Variable P : platform.
Variable nm : nmethod.
Variables this dest : address.
Variable s : state.

Let tramp := trampoline_of P nm (mem s) this.
Let slot := tramp + data_offset P.
Let w := encode_call P (tramp - this).
Let m1 := store 8 (mem s) slot (Int.uint64 dest).
Let m2 := store 4 m1 this (Int.uint32 w).

Hypothesis Hblob : find_blob P this = Some (Blob_nmethod nm).

Lemma get_trampoline_runs :
  NativeCall.get_trampoline P this s
  = Done tramp (mkState (mem s) (log s ++ [EvFindBlob this])).
Proof using All.
  unfold NativeCall.get_trampoline. mrun. rewrite Z.add_0_r.
  rewrite Hblob. mrun. rewrite andb_false_r. mrun.
  rewrite displacement_runs. mrun.
  subst tramp. unfold trampoline_of.
  destruct (stub_contains nm (this + decode_displacement P (load32 (mem s) this))
            && is_NativeCallTrampolineStub_at P (mem s)
                 (this + decode_displacement P (load32 (mem s) this)));
    reflexivity.
Qed.

Hypothesis Hpre : ASSERT P = true -> patching_preconditions P (mem s) this dest.
Hypothesis Hfar : reachable_from_branch_at P this dest = false.
Hypothesis Htramp : tramp <> nullptr.

Lemma far_redirection_runs :
  NativeCall.set_destination_mt_safe P this dest s
  = Done tt (mkState m2
       (log s ++ [EvFindBlob this; EvStore slot 8 (Int.uint64 dest); EvRelease;
                  EvStore this 4 (Int.uint32 w); EvInvalidate this 4])).
Proof using All.
  unfold NativeCall.set_destination_mt_safe, addr_at. rewrite !Z.add_0_r.
  erewrite bind_done
    by (apply assert_holds; intros H; apply (Hpre H)).
  erewrite bind_done by reflexivity.
  erewrite bind_done
    by (apply assert_holds; intros H; rewrite Z.add_0_r; apply (Hpre H)).
  erewrite bind_done by apply get_trampoline_runs.
  fold tramp. replace (tramp =? nullptr) with false by lia. cbn [negb].
  erewrite bind_done.
  2:{ erewrite bind_done by reflexivity.
      erewrite bind_done
        by (apply assert_holds; intros H; cbn [mem];
            destruct (Hpre H) as (_ & _ & ->); reflexivity).
      reflexivity. }
  rewrite Hfar.
  erewrite bind_done.
  2:{ erewrite bind_done by (apply assert_holds; reflexivity). reflexivity. }
  unfold ICache_invalidate_range, emit. cbn [mem log].
  rewrite <- !app_assoc. cbn [app].
  unfold NativeCall.displacement_offset, instruction_address, addr_at.
  rewrite !Z.add_0_r. reflexivity.
Qed.

Hypothesis Hlay : call_layout P nm (mem s) this tramp.
Hypothesis Hdest : 0 <= dest < 2 ^ 64.

Lemma slot_apart_from_call : disjoint slot 8 this 4.
Proof using All.
  destruct Hlay as [Ho Hd _ _ _ _]. unfold disjoint in *. subst slot. lia.
Qed.

Lemma call_word_kept_m1 : load32 m1 this = load32 (mem s) this.
Proof using All. apply (load_store_disjoint 8 4). apply slot_apart_from_call. Qed.

Lemma call_word_m2 : load32 m2 this = Int.uint32 w.
Proof using All. unfold m2. now rewrite load32_store32, uint32_idem. Qed.

Lemma slot_m1 : load64 m1 slot = dest.
Proof using All.
  unfold m1. rewrite load64_store64, uint64_idem.
  unfold Int.uint64. now apply Z.mod_small.
Qed.

Lemma slot_m2 : load64 m2 slot = dest.
Proof using All.
  unfold m2. rewrite (load_store_disjoint 4 8); [apply slot_m1|].
  destruct Hlay as [Ho Hd _ _ _ _]. unfold disjoint in *. subst slot.
  simpl Z.of_nat. lia.
Qed.

Lemma prologue_m1 : is_NativeCallTrampolineStub_at P m1 tramp = true.
Proof using All.
  destruct Hlay as [Ho Hd _ Hp Hl _]. rewrite <- Hp. apply Hl.
  intros i Hi. apply store_outside. subst slot. lia.
Qed.

Lemma prologue_m2 : is_NativeCallTrampolineStub_at P m2 tramp = true.
Proof using All.
  rewrite <- prologue_m1. destruct Hlay as [Ho Hd _ Hp Hl _]. apply Hl.
  intros i Hi. apply store_outside. unfold disjoint in Hd. simpl Z.of_nat. lia.
Qed.

Lemma tramp_not_call : tramp <> this.
Proof using All. destruct Hlay as [Ho Hd _ _ _ _]. unfold disjoint in Hd. lia. Qed.

(** Once the call has been repointed, it resolves to [dest] through the stub. *)
Lemma destination_m2 (l : list event) :
  NativeCall.destination P this (mkState m2 l)
  = Done dest (mkState m2 (l ++ [EvFindBlob this])).
Proof using All.
  pose proof tramp_not_call as Hne.
  assert (Ht : this + decode_displacement P (load32 m2 this) = tramp).
  { rewrite call_word_m2. destruct Hlay as [_ _ _ _ _ He]. fold w in He.
    rewrite He. lia. }
  rewrite (destination_runs P this _ nm Hblob); cbn [mem log]; rewrite Ht;
    [|exact Hne].
  destruct Hlay as [_ _ Hr _ _ _]. rewrite Hr, prologue_m2. cbn [andb].
  fold slot. now rewrite slot_m2.
Qed.

(** Between the store to the slot and the store to the call word, the call
    resolves to what it resolved to before, or to [dest]. *)
Lemma destination_m1 (l : list event) (old : address) (so : state) :
  (let raw := this + decode_displacement P (load32 (mem s) this) in
   raw = tramp \/ disjoint slot 8 raw (data_offset P)) ->
  NativeCall.destination P this (mkState (mem s) l) = Done old so ->
  exists T sr, NativeCall.destination P this (mkState m1 l) = Done T sr /\
               (T = old \/ T = dest).
Proof using All.
  intros Hraw Hold. cbv zeta in Hraw.
  set (raw := this + decode_displacement P (load32 (mem s) this)) in *.
  destruct (Z.eq_dec raw this) as [Hself|Hns].
  - rewrite destination_self in Hold by exact Hself. injection Hold as <- _.
    rewrite destination_self by (cbn [mem]; rewrite call_word_kept_m1; exact Hself).
    do 2 eexists. split; [reflexivity | now left].
  - rewrite (destination_runs P this _ nm Hblob) in Hold by exact Hns.
    cbn [mem log] in Hold. fold raw in Hold.
    rewrite (destination_runs P this _ nm Hblob)
      by (cbn [mem]; rewrite call_word_kept_m1; exact Hns).
    cbn [mem log]. rewrite call_word_kept_m1. fold raw.
    do 2 eexists. split; [reflexivity|].
    destruct (Z.eq_dec raw tramp) as [Heq|Hnt].
    + right. rewrite Heq. destruct Hlay as [_ _ Hr _ _ _].
      rewrite Hr, prologue_m1. cbn [andb]. fold slot. apply slot_m1.
    + left. destruct Hraw as [Heq|Hdis]; [contradiction|].
      assert (Hsame : is_NativeCallTrampolineStub_at P m1 raw
                      = is_NativeCallTrampolineStub_at P (mem s) raw).
      { destruct Hlay as [_ _ _ _ Hl _]. apply Hl.
        apply (agree_store_disjoint 8). exact Hdis. }
      rewrite Hsame.
      destruct (stub_contains nm raw
                && is_NativeCallTrampolineStub_at P (mem s) raw) eqn:E.
      * exfalso. apply Hnt. subst tramp. unfold trampoline_of. fold raw.
        now rewrite E.
      * now injection Hold as <- _.
Qed.
End CallRedirection.

Lemma sample_stub_local (debug : bool) : stub_recognition_local (Sample.plat debug).
Proof.
  intros m m' a H. cbn in H |- *. unfold Sample.stub_prologue, load32.
  rewrite (load_ext 4 m m' a) by (intros i Hi; apply H; simpl in Hi; lia).
  rewrite (load_ext 4 m m' (a + 4)) by (intros i Hi; apply H; simpl in Hi; lia).
  reflexivity.
Qed.

(** C1, as the code has it.  Let the call at [this] belong to a compiled unit
    and have an associated trampoline stub, and let [dest] be outside the
    range a branch at [this] reaches.  Then [set_destination_mt_safe(dest)]
    finds that stub, stores [dest] into its destination slot and fences,
    only then rewrites the call word to the branch to the stub's address, and
    invalidates the instruction cache over the call word last.  Where stub
    and call are laid out as emitted, the call's displacement afterwards
    leads to the stub, the stub's slot holds [dest], and [destination()]
    returns [dest]. *)
Theorem far_call_redirected_through_trampoline
  (P : platform) (nm : nmethod) (this dest : address) (s : state) :
  let tramp := trampoline_of P nm (mem s) this in
  let slot := tramp + data_offset P in
  let w := encode_call P (tramp - this) in
  let evs := [EvFindBlob this; EvStore slot 8 (Int.uint64 dest); EvRelease;
              EvStore this 4 (Int.uint32 w); EvInvalidate this 4] in
  find_blob P this = Some (Blob_nmethod nm) ->
  (ASSERT P = true -> patching_preconditions P (mem s) this dest) ->
  reachable_from_branch_at P this dest = false ->
  tramp <> nullptr ->
  exists s',
    (exists st, NativeCall.get_trampoline P this s = Done tramp st) /\
    NativeCall.set_destination_mt_safe P this dest s = Done tt s' /\
    log s' = log s ++ evs /\
    mem s' = replay P (mem s) evs /\
    (call_layout P nm (mem s) this tramp -> 0 <= dest < 2 ^ 64 ->
     NativeCall.displacement P this s' = Done (tramp - this) s' /\
     NativeCallTrampolineStub.destination P tramp s' = Done dest s' /\
     exists sd, NativeCall.destination P this s' = Done dest sd).
Proof.
  intros tramp slot w evs Hblob Hpre Hfar Htramp.
  eexists. split; [|split; [|split; [|split]]].
  - eexists. apply (get_trampoline_runs P nm this dest s Hblob).
  - apply (far_redirection_runs P nm this dest s Hblob Hpre Hfar Htramp).
  - reflexivity.
  - reflexivity.
  - intros Hlay Hdest. subst tramp slot w evs. split; [|split].
    + rewrite displacement_runs. cbn [mem].
      rewrite (call_word_m2 P nm this dest s Hblob Hpre Hfar Htramp Hlay Hdest).
      destruct Hlay as [_ _ _ _ _ He]. now rewrite He.
    + rewrite stub_destination_runs. cbn [mem].
      now rewrite (slot_m2 P nm this dest s Hblob Hpre Hfar Htramp Hlay Hdest).
    + eexists.
      apply (destination_m2 P nm this dest s Hblob Hpre Hfar Htramp Hlay Hdest).
Qed.

Lemma sample_call_layout :
  call_layout (Sample.plat true) Sample.unit_nm
              (mem (Sample.start Sample.trampolined_call)) 0x10000000 0x10008000.
Proof.
  constructor.
  - cbn. lia.
  - left. cbn. lia.
  - reflexivity.
  - reflexivity.
  - apply sample_stub_local.
  - reflexivity.
Qed.

Lemma far_call_redirected_through_trampoline_witness :
  let P := Sample.plat true in
  let s := Sample.start Sample.trampolined_call in
  exists s',
    NativeCall.set_destination_mt_safe P 0x10000000 Sample.far2 s = Done tt s' /\
    log s' = [EvFindBlob 0x10000000; EvStore 0x10008008 8 Sample.far2; EvRelease;
              EvStore 0x10000000 4 0x94002000; EvInvalidate 0x10000000 4] /\
    NativeCall.displacement P 0x10000000 s' = Done 0x8000 s' /\
    exists sd, NativeCall.destination P 0x10000000 s' = Done Sample.far2 sd.
Proof.
  intros P s.
  destruct (far_call_redirected_through_trampoline P Sample.unit_nm
              0x10000000 Sample.far2 s)
    as (s' & _ & Hrun & Hlog & _ & Hafter).
  - reflexivity.
  - intros _. repeat split; reflexivity.
  - reflexivity.
  - vm_compute. discriminate.
  - destruct (Hafter sample_call_layout) as (Hd & _ & Hdest).
    + unfold Sample.far2. lia.
    + exists s'. split; [exact Hrun|]. split; [exact Hlog|].
      split; [exact Hd | exact Hdest].
Defined.

(** C1, as stated, fails.  (i) The call at [0x10000000] resolves through its
    trampoline to a target outside the branch range; asked to go to the
    nearby [0x10000800], [set_destination_mt_safe] updates the stub's slot
    but rewrites the call to branch to [0x10000800] itself, not to the
    trampoline at [0x10008000].  (ii) The same happens at [0x10000040], whose
    call word itself encodes the unreachable displacement -128M.  (iii) The
    call at [0x10000080] has no trampoline and none is created: for a far
    target a build with assertions stops at "we need a trampoline", and a
    build without them leaves a call that does not resolve to the target. *)
Lemma near_target_bypasses_trampoline :
  let P := Sample.plat true in
  let s := Sample.start (Sample.trampolined_call ++ Sample.edge_calls) in
  (returned (NativeCall.destination P 0x10000000 s) = Some Sample.far /\
   reachable_from_branch_at P 0x10000000 Sample.far = false /\
   returned (NativeCall.get_trampoline P 0x10000000 s) = Some 0x10008000 /\
   let o := NativeCall.set_destination_mt_safe P 0x10000000 0x10000800 s in
   returned o = Some tt /\
   returned (NativeCall.displacement P 0x10000000 (final o)) = Some 0x800 /\
   returned (NativeCall.displacement P 0x10000000 (final o))
   <> Some (0x10008000 - 0x10000000)) /\
  (returned (NativeCall.displacement P 0x10000040 s) = Some (- Sample.M128) /\
   reachable_from_branch_at P 0x10000040 (0x10000040 - Sample.M128) = false /\
   returned (NativeCall.get_trampoline P 0x10000040 s) = Some 0x10008020 /\
   let o := NativeCall.set_destination_mt_safe P 0x10000040 0x10000800 s in
   returned o = Some tt /\
   returned (NativeCall.displacement P 0x10000040 (final o))
   = Some (0x10000800 - 0x10000040) /\
   returned (NativeCall.displacement P 0x10000040 (final o))
   <> Some (0x10008020 - 0x10000040)) /\
  (returned (NativeCall.displacement P 0x10000080 s) = Some (- Sample.M128) /\
   reachable_from_branch_at P 0x10000080 Sample.far2 = false /\
   returned (NativeCall.get_trampoline P 0x10000080 s) = Some nullptr /\
   aborted (NativeCall.set_destination_mt_safe P 0x10000080 Sample.far2 s)
   = Some AssertionFailure /\
   let o := NativeCall.set_destination_mt_safe (Sample.plat false)
              0x10000080 Sample.far2 s in
   returned o = Some tt /\
   returned (NativeCall.destination (Sample.plat false) 0x10000080 (final o))
   = Some 0x10000000).
Proof.
  cbv zeta. split; [|split].
  - repeat (split; [vm_compute; reflexivity|]). vm_compute. discriminate.
  - repeat (split; [vm_compute; reflexivity|]). vm_compute. discriminate.
  - repeat (split; [vm_compute; reflexivity|]). vm_compute. reflexivity.
Qed.

Lemma returned_done {A} (o : outcome A) (a : A) :
  returned o = Some a <-> exists st, o = Done a st.
Proof.
  destruct o as [x st|f st]; cbn; split.
  - intros H. injection H as ->. now exists st.
  - intros [st' H]. now injection H as -> _.
  - discriminate.
  - intros [st' H]. discriminate H.
Qed.

(** C2, as the code has it, on the interleaving of the mutation's stores
    with a reader.  Each store of the mutation (the 8-byte store to the
    stub's slot, the 4-byte store of the call word) is one atomic step; the
    memories another thread can see while [set_destination_mt_safe(dest)]
    runs are those reached after each prefix of the logged events.  For
    [dest] outside the branch range, at a call site that has an associated
    trampoline stub, call and stub being laid out as emitted,
    [destination()] evaluated on any of these memories returns the
    destination the call had before the mutation or [dest], and on the last
    one it returns [dest]. *)
Theorem reader_sees_old_or_new
  (P : platform) (nm : nmethod) (this dest : address) (s : state) (old : address) :
  let tramp := trampoline_of P nm (mem s) this in
  let slot := tramp + data_offset P in
  let raw := this + decode_displacement P (load32 (mem s) this) in
  find_blob P this = Some (Blob_nmethod nm) ->
  (ASSERT P = true -> patching_preconditions P (mem s) this dest) ->
  reachable_from_branch_at P this dest = false ->
  tramp <> nullptr ->
  call_layout P nm (mem s) this tramp ->
  0 <= dest < 2 ^ 64 ->
  (raw = tramp \/ disjoint slot 8 raw (data_offset P)) ->
  returned (NativeCall.destination P this (mkState (mem s) [])) = Some old ->
  exists s' evs,
    NativeCall.set_destination_mt_safe P this dest s = Done tt s' /\
    log s' = log s ++ evs /\
    mem s' = replay P (mem s) evs /\
    returned (NativeCall.destination P this (mkState (mem s') [])) = Some dest /\
    forall k : nat,
      let seen := replay P (mem s) (firstn k evs) in
      exists T,
        returned (NativeCall.destination P this (mkState seen [])) = Some T /\
        (T = old \/ T = dest).
Proof.
  intros tramp slot raw Hblob Hpre Hfar Htramp Hlay Hdest Hraw Hold.
  subst tramp slot raw.
  pose proof (far_redirection_runs P nm this dest s Hblob Hpre Hfar Htramp) as Hrun.
  pose proof (destination_m2 P nm this dest s Hblob Hpre Hfar Htramp Hlay Hdest [])
    as Hm2.
  apply returned_done in Hold. destruct Hold as [so Hold].
  destruct (destination_m1 P nm this dest s Hblob Hpre Hfar Htramp Hlay Hdest
              [] old so Hraw Hold) as (T1 & sr & Hm1 & HT1).
  do 2 eexists. split; [exact Hrun|]. split; [reflexivity|].
  split; [reflexivity|]. split.
  - cbn [mem]. rewrite Hm2. reflexivity.
  - intros k.
    destruct k as [|[|[|[|k]]]]; cbn [firstn replay fold_left apply_event].
    + exists old. rewrite Hold. split; [reflexivity | now left].
    + exists old. rewrite Hold. split; [reflexivity | now left].
    + exists T1. change (Z.to_nat 8) with 8%nat. rewrite Hm1.
      split; [reflexivity | exact HT1].
    + exists T1. change (Z.to_nat 8) with 8%nat. rewrite Hm1.
      split; [reflexivity | exact HT1].
    + exists dest. split; [|now right].
      destruct k; cbn [firstn replay fold_left apply_event];
        rewrite ?firstn_nil; cbn [fold_left];
        change (Z.to_nat 8) with 8%nat; change (Z.to_nat 4) with 4%nat;
        rewrite Hm2; reflexivity.
Qed.

Lemma reader_sees_old_or_new_witness :
  let P := Sample.plat true in
  let s := Sample.start Sample.trampolined_call in
  exists s' evs,
    NativeCall.set_destination_mt_safe P 0x10000000 Sample.far2 s = Done tt s' /\
    log s' = log s ++ evs /\
    mem s' = replay P (mem s) evs /\
    returned (NativeCall.destination P 0x10000000 (mkState (mem s') []))
    = Some Sample.far2 /\
    forall k : nat,
      let seen := replay P (mem s) (firstn k evs) in
      exists T,
        returned (NativeCall.destination P 0x10000000 (mkState seen [])) = Some T /\
        (T = Sample.far \/ T = Sample.far2).
Proof.
  intros P s.
  apply (reader_sees_old_or_new P Sample.unit_nm 0x10000000 Sample.far2 s Sample.far).
  - reflexivity.
  - intros _. repeat split; reflexivity.
  - reflexivity.
  - vm_compute. discriminate.
  - exact sample_call_layout.
  - unfold Sample.far2. lia.
  - left. reflexivity.
  - reflexivity.
Defined.

(** ** NativeMovConstReg *)

Section ConstantLoad.
Variable P : platform.

Lemma patch_first_reloc_runs (x : Z) (rs : list relocation) (s : state) :
  NativeMovConstReg.patch_first_reloc x rs s
  = match find is_reference rs with
    | Some r => store_at 8 (reloc_slot r) x s
    | None => Done tt s
    end.
Proof.
  induction rs as [|r rest IH]; [reflexivity|].
  cbn [NativeMovConstReg.patch_first_reloc find]. unfold is_reference at 1.
  destruct (reloc_type r); try reflexivity. exact IH.
Qed.

(** The first record of a reference kind is the one found. *)
Lemma find_first_reference (pre post : list relocation) (r : relocation) :
  forallb (fun q => negb (is_reference q)) pre = true ->
  is_reference r = true ->
  find is_reference (pre ++ r :: post) = Some r.
Proof.
  intros Hpre Hr. induction pre as [|q pre IH]; cbn [app find].
  - now rewrite Hr.
  - cbn [forallb] in Hpre. apply andb_true_iff in Hpre. destruct Hpre as [Hq Hpre].
    apply negb_true_iff in Hq. rewrite Hq. now apply IH.
Qed.

Lemma data_runs (this : address) (s : state) :
  NativeMovConstReg.data P this s
  = Done (if maybe_cpool_ref_insn P (load32 (mem s) this)
          then Int.intptr (load64 (mem s) (target_addr_for_insn P (mem s) this))
          else Int.intptr (target_addr_for_insn P (mem s) this)) s.
Proof.
  unfold NativeMovConstReg.data. mrun. rewrite Z.add_0_r.
  destruct (maybe_cpool_ref_insn P (load32 (mem s) this)); reflexivity.
Qed.

Lemma set_data_runs (this x : Z) (s : state) (cb : CodeBlob) :
  find_blob P this = Some cb ->
  let head :=
    if maybe_cpool_ref_insn P (load32 (mem s) this)
    then [EvStore (target_addr_for_insn P (mem s) this) 8 (Int.uint64 x)]
    else [EvPatchInstruction this (Int.ptr x);
          EvInvalidate this (MovConstReg_instruction_size P)] in
  let m1 := replay P (mem s) head in
  let tail :=
    match find is_reference (records_at P cb m1 this) with
    | Some r => [EvStore (reloc_slot r) 8 (Int.uint64 x)]
    | None => []
    end in
  NativeMovConstReg.set_data P this x s
  = Done tt (mkState (replay P m1 tail) (log s ++ head ++ [EvFindBlob this] ++ tail)).
Proof.
  intros Hb head m1 tail.
  unfold NativeMovConstReg.set_data, NativeMovConstReg.next_instruction_address,
    NativeMovConstReg.instruction_size.
  mrun. rewrite !Z.add_0_r. subst head m1 tail.
  destruct (maybe_cpool_ref_insn P (load32 (mem s) this)); mrun;
    rewrite Hb; destruct cb as [nm|]; mrun; cbn [records_at find];
    rewrite ?patch_first_reloc_runs;
    cbn [replay fold_left apply_event];
    change (Z.to_nat 8) with 8%nat;
    change (x mod 2 ^ (8 * Z.of_nat 8)) with (Int.uint64 x);
    change (Z.of_nat 8) with 8;
    repeat match goal with
           | |- context [find is_reference ?l] => destruct (find is_reference l)
           end;
    mrun; cbn [replay fold_left apply_event]; rewrite <- ?app_assoc; reflexivity.
Qed.

Lemma find_no_reference (rs : list relocation) :
  forallb (fun q => negb (is_reference q)) rs = true ->
  find is_reference rs = None.
Proof.
  induction rs as [|q rs IH]; [reflexivity|]. cbn [forallb find]. intros H.
  apply andb_true_iff in H. destruct H as [Hq H].
  apply negb_true_iff in Hq. rewrite Hq. now apply IH.
Qed.

Lemma maybe_cpool_ref_local (m m' : memory) (this ext : Z) :
  4 <= ext -> agree m m' this ext ->
  maybe_cpool_ref_insn P (load32 m this) = maybe_cpool_ref_insn P (load32 m' this).
Proof.
  intros He H. f_equal. apply (load_ext 4). intros i Hi. apply H.
  simpl Z.of_nat in Hi. lia.
Qed.

(** After [set_data(x)] on a site that is not a pool reference, [data()]
    returns [x], provided the patched template decodes to [x] and the
    reference slot that is updated lies outside the template. *)
Lemma data_after_set_data_inline (this x ext : Z) (s s' : state) (cb : CodeBlob) :
  find_blob P this = Some cb ->
  - 2 ^ 63 <= x < 2 ^ 63 ->
  maybe_cpool_ref_insn P (load32 (mem s) this) = false ->
  let m1 := pd_patch_instruction P (mem s) this (Int.ptr x) in
  target_addr_for_insn P m1 this = Int.ptr x ->
  maybe_cpool_ref_insn P (load32 m1 this) = false ->
  decoder_local P ext -> 4 <= ext ->
  (forall r, find is_reference (records_at P cb m1 this) = Some r ->
             disjoint (reloc_slot r) 8 this ext) ->
  NativeMovConstReg.set_data P this x s = Done tt s' ->
  NativeMovConstReg.data P this s' = Done x s'.
Proof.
  intros Hb Hx Hnp m1 Hrt Hstill Hloc Hext Hsep Hrun.
  rewrite (set_data_runs this x s cb Hb) in Hrun. cbv zeta in Hrun.
  rewrite Hnp in Hrun.
  change (replay P (mem s) [EvPatchInstruction this (Int.ptr x);
                            EvInvalidate this (MovConstReg_instruction_size P)])
    with m1 in Hrun.
  injection Hrun as <-.
  rewrite data_runs. cbn [mem].
  set (m2 := replay P m1 _).
  assert (Hagree : agree m2 m1 this ext).
  { subst m2. destruct (find is_reference (records_at P cb m1 this)) as [r|] eqn:E.
    - cbn [replay fold_left apply_event]. apply (agree_store_disjoint 8).
      now apply Hsep.
    - intros i _. reflexivity. }
  rewrite (maybe_cpool_ref_local _ m1 this ext Hext Hagree), Hstill.
  rewrite (Hloc _ m1 this Hagree), Hrt.
  now rewrite intptr_ptr.
Qed.

(** The same for a pool reference: [data()] reads [x] back from the pool
    slot, provided the pool slot lies outside the template and the updated
    reference slot leaves both alone. *)
Lemma data_after_set_data_pool (this x ext : Z) (s s' : state) (cb : CodeBlob) :
  find_blob P this = Some cb ->
  - 2 ^ 63 <= x < 2 ^ 63 ->
  maybe_cpool_ref_insn P (load32 (mem s) this) = true ->
  let pool := target_addr_for_insn P (mem s) this in
  let m1 := store 8 (mem s) pool (Int.uint64 x) in
  decoder_local P ext -> 4 <= ext ->
  disjoint pool 8 this ext ->
  (forall r, find is_reference (records_at P cb m1 this) = Some r ->
             disjoint (reloc_slot r) 8 this ext /\
             disjoint (reloc_slot r) 8 pool 8) ->
  NativeMovConstReg.set_data P this x s = Done tt s' ->
  NativeMovConstReg.data P this s' = Done x s'.
Proof.
  intros Hb Hx Hp pool m1 Hloc Hext Hpool Hsep Hrun.
  rewrite (set_data_runs this x s cb Hb) in Hrun. cbv zeta in Hrun.
  rewrite Hp in Hrun.
  change (replay P (mem s) [EvStore (target_addr_for_insn P (mem s) this) 8
                                    (Int.uint64 x)]) with m1 in Hrun.
  injection Hrun as <-. rewrite data_runs. cbn [mem].
  set (m2 := replay P m1 _).
  assert (H12 : agree m2 m1 this ext /\ agree m2 m1 pool 8).
  { subst m2. destruct (find is_reference (records_at P cb m1 this)) as [r|] eqn:E.
    - cbn [replay fold_left apply_event]. destruct (Hsep r eq_refl) as [H1 H2].
      split; apply (agree_store_disjoint 8); assumption.
    - split; intros i _; reflexivity. }
  destruct H12 as [Hcode Hslot].
  assert (H01 : agree m1 (mem s) this ext).
  { apply (agree_store_disjoint 8). exact Hpool. }
  assert (H02 : agree m2 (mem s) this ext).
  { intros i Hi. rewrite (Hcode i Hi). now apply H01. }
  rewrite (maybe_cpool_ref_local _ (mem s) this ext Hext H02), Hp.
  rewrite (Hloc _ (mem s) this H02). fold pool.
  replace (load64 m2 pool) with (load64 m1 pool) by (symmetry; now apply (load_ext 8)).
  unfold m1. rewrite load64_store64, uint64_idem.
  change (Int.uint64 x) with (Int.ptr x). now rewrite (intptr_ptr x Hx).
Qed.
End ConstantLoad.

Lemma replay_app (P : platform) (m : memory) (a b : list event) :
  replay P m (a ++ b) = replay P (replay P m a) b.
Proof. apply fold_left_app. Qed.

(** C9, as the code has it.  [set_data(x)] at a site owned by a code blob
    returns, and the events it logs account for the memory it leaves.  On a site that is not
    a pool reference these are: the rewrite of the instruction stream to
    encode [x], the instruction-cache invalidation over the site, the blob
    look-up, and then, when the relocation records overlapping the site
    contain one of kind object reference or type-metadata reference, one
    store of [x] to the slot of the first such record and nothing for the
    records after it (no store at all when there is none); afterwards
    [data()] returns [x] for every [x] the template can hold, that is, given
    that the rewritten template decodes to [x], the updated slot lying
    outside it.  On a pool reference the first
    event is instead the store of [x] to the pool slot, and no
    instruction-stream rewrite and no cache invalidation occurs; [data()]
    then reads [x] back from the pool slot, given that the slots written lie
    outside the template and apart from each other. *)
Theorem set_data_effects (P : platform) (this x : Z) (s : state) (cb : CodeBlob) :
  find_blob P this = Some cb ->
  exists s' evs,
    NativeMovConstReg.set_data P this x s = Done tt s' /\
    log s' = log s ++ evs /\
    mem s' = replay P (mem s) evs /\
    (maybe_cpool_ref_insn P (load32 (mem s) this) = false ->
     let m1 := pd_patch_instruction P (mem s) this (Int.ptr x) in
     exists tail,
       evs = [EvPatchInstruction this (Int.ptr x);
              EvInvalidate this (MovConstReg_instruction_size P);
              EvFindBlob this] ++ tail /\
       (forall pre r post,
          records_at P cb m1 this = pre ++ r :: post ->
          forallb (fun q => negb (is_reference q)) pre = true ->
          is_reference r = true ->
          tail = [EvStore (reloc_slot r) 8 (Int.uint64 x)] /\
          load64 (mem s') (reloc_slot r) = Int.uint64 x) /\
       (forallb (fun q => negb (is_reference q)) (records_at P cb m1 this) = true ->
        tail = []) /\
       (forall ext,
          - 2 ^ 63 <= x < 2 ^ 63 ->
          target_addr_for_insn P m1 this = Int.ptr x ->
          maybe_cpool_ref_insn P (load32 m1 this) = false ->
          decoder_local P ext -> 4 <= ext ->
          (forall r, find is_reference (records_at P cb m1 this) = Some r ->
                     disjoint (reloc_slot r) 8 this ext) ->
          NativeMovConstReg.data P this s' = Done x s')) /\
    (maybe_cpool_ref_insn P (load32 (mem s) this) = true ->
     let pool := target_addr_for_insn P (mem s) this in
     let m1 := store 8 (mem s) pool (Int.uint64 x) in
     exists tail,
       evs = [EvStore pool 8 (Int.uint64 x); EvFindBlob this] ++ tail /\
       load64 m1 pool = Int.uint64 x /\
       existsb is_patch evs = false /\
       existsb is_invalidate evs = false /\
       (forall pre r post,
          records_at P cb m1 this = pre ++ r :: post ->
          forallb (fun q => negb (is_reference q)) pre = true ->
          is_reference r = true ->
          tail = [EvStore (reloc_slot r) 8 (Int.uint64 x)]) /\
       (forallb (fun q => negb (is_reference q)) (records_at P cb m1 this) = true ->
        tail = []) /\
       (forall ext,
          - 2 ^ 63 <= x < 2 ^ 63 ->
          decoder_local P ext -> 4 <= ext ->
          disjoint pool 8 this ext ->
          (forall r, find is_reference (records_at P cb m1 this) = Some r ->
                     disjoint (reloc_slot r) 8 this ext /\
                     disjoint (reloc_slot r) 8 pool 8) ->
          NativeMovConstReg.data P this s' = Done x s')).
Proof.
  intros Hb. pose proof (set_data_runs P this x s cb Hb) as Hrun.
  cbv zeta in Hrun. do 2 eexists.
  split; [exact Hrun|]. split; [reflexivity|]. split.
  { cbn [mem]. rewrite replay_app. reflexivity. }
  split.
  - intros Hnp m1. rewrite Hnp.
    change (replay P (mem s) [EvPatchInstruction this (Int.ptr x);
                              EvInvalidate this (MovConstReg_instruction_size P)])
      with m1.
    eexists. split; [reflexivity|]. split; [|split].
    + intros pre r post Hrs Hpre Hr.
      rewrite Hrs, (find_first_reference pre post r Hpre Hr).
      split; [reflexivity|]. cbn [mem replay fold_left apply_event].
      change (Z.to_nat 8) with 8%nat. now rewrite load64_store64, uint64_idem.
    + intros Hnone. now rewrite (find_no_reference _ Hnone).
    + intros ext Hx Hrt Hstill Hloc Hext Hsep.
      apply (data_after_set_data_inline P this x ext s _ cb Hb Hx Hnp Hrt Hstill
               Hloc Hext Hsep).
      rewrite Hrun, Hnp. reflexivity.
  - intros Hp pool m1. rewrite Hp.
    change (replay P (mem s) [EvStore (target_addr_for_insn P (mem s) this) 8
                                      (Int.uint64 x)]) with m1.
    eexists. split; [reflexivity|]. split; [|split; [|split; [|split; [|split]]]].
    + unfold m1. now rewrite load64_store64, uint64_idem.
    + cbn [app existsb is_patch orb].
      destruct (find is_reference (records_at P cb m1 this)); reflexivity.
    + cbn [app existsb is_invalidate orb].
      destruct (find is_reference (records_at P cb m1 this)); reflexivity.
    + intros pre r post Hrs Hpre Hr.
      now rewrite Hrs, (find_first_reference pre post r Hpre Hr).
    + intros Hnone. now rewrite (find_no_reference _ Hnone).
    + intros ext Hx Hloc Hext Hpool Hsep.
      apply (data_after_set_data_pool P this x ext s _ cb Hb Hx Hp Hloc Hext
               Hpool Hsep).
      rewrite Hrun, Hp. reflexivity.
Qed.

Lemma sample_decoder_local (debug : bool) : decoder_local (Sample.plat debug) 12.
Proof.
  intros m m' pc H. cbn. unfold Sample.target_addr, load32.
  rewrite (load_ext 4 m m' pc) by (intros i Hi; apply H; simpl in Hi; lia).
  rewrite (load_ext 4 m m' (pc + 4)) by (intros i Hi; apply H; simpl in Hi; lia).
  rewrite (load_ext 4 m m' (pc + 8)) by (intros i Hi; apply H; simpl in Hi; lia).
  reflexivity.
Qed.

Lemma set_data_effects_witness :
  let P := Sample.plat true in
  let s := Sample.start Sample.jumps_and_loads in
  exists s',
    NativeMovConstReg.set_data P 0x10000100 0x123456789abc s = Done tt s' /\
    log s' = [EvPatchInstruction 0x10000100 0x123456789abc;
              EvInvalidate 0x10000100 12; EvFindBlob 0x10000100;
              EvStore 0x1000c000 8 0x123456789abc] /\
    load64 (mem s') 0x1000c000 = 0x123456789abc /\
    NativeMovConstReg.data P 0x10000100 s' = Done 0x123456789abc s'.
Proof.
  intros P s.
  destruct (set_data_effects P 0x10000100 0x123456789abc s
              (Blob_nmethod Sample.unit_nm) eq_refl)
    as (s' & evs & Hrun & Hlog & _ & Hinline & _).
  destruct (Hinline eq_refl) as (tail & Hevs & Hfirst & _ & Hdata).
  destruct (Hfirst [mkReloc other_reloc_type 0] (mkReloc oop_type 0x1000c000)
              [mkReloc metadata_type 0x1000c008] eq_refl eq_refl eq_refl)
    as [Htail Hslot].
  exists s'. split; [exact Hrun|]. split; [|split].
  - rewrite Hlog, Hevs, Htail. reflexivity.
  - exact Hslot.
  - apply (Hdata 12).
    + lia.
    + reflexivity.
    + reflexivity.
    + apply sample_decoder_local.
    + lia.
    + intros r Hr. vm_compute in Hr. injection Hr as <-. right. cbn. lia.
Defined.

(** ** NativeJump and NativeGeneralJump *)

Section JumpFacts.
Variable P : platform.

Lemma jump_destination_runs (this : address) (s : state) :
  NativeJump.jump_destination P this s
  = Done (let dest := target_addr_for_insn_or_null P (mem s) this in
          if (dest =? this) || (dest =? nullptr) then minus_one else dest) s.
Proof.
  unfold NativeJump.jump_destination. mrun. rewrite Z.add_0_r.
  destruct ((target_addr_for_insn_or_null P (mem s) this =? this)
            || (target_addr_for_insn_or_null P (mem s) this =? nullptr));
    reflexivity.
Qed.

Lemma general_jump_destination_runs (this : address) (s : state) (d : Z) :
  NativeMovConstReg.data P this s = Done d s ->
  NativeGeneralJump.jump_destination P this s
  = Done (if (Int.ptr d =? this) || (Int.ptr d =? nullptr)
          then minus_one else Int.ptr d) s.
Proof.
  intros Hd. unfold NativeGeneralJump.jump_destination, instruction_address, addr_at.
  rewrite Z.add_0_r. erewrite bind_done by exact Hd.
  destruct ((Int.ptr d =? this) || (Int.ptr d =? nullptr)); reflexivity.
Qed.

Lemma set_jump_destination_unresolved (this : address) (s : state) :
  NativeJump.set_jump_destination P this minus_one s
  = Done tt (mkState (pd_patch_instruction P (mem s) this this)
                     (log s ++ [EvPatchInstruction this this;
                                EvInvalidate this NativeJump.instruction_size])).
Proof.
  unfold NativeJump.set_jump_destination. rewrite Z.eqb_refl. mrun.
  rewrite Z.add_0_r, <- app_assoc. reflexivity.
Qed.

Lemma general_set_jump_destination_unresolved (this : address) (s : state) :
  NativeGeneralJump.set_jump_destination P this minus_one s
  = NativeMovConstReg.set_data P this (Int.intptr this) s.
Proof.
  unfold NativeGeneralJump.set_jump_destination. rewrite Z.eqb_refl.
  unfold instruction_address, addr_at. now rewrite Z.add_0_r.
Qed.
End JumpFacts.

(** C7.  For a direct jump and for a general jump, [jump_destination()]
    returns the all-ones address whenever the computed target is the
    instruction's own address or null.  [set_jump_destination] of the
    all-ones address patches a direct jump to branch to its own address, and
    for a general jump stores the site's own address through [set_data]; in
    both cases a subsequent [jump_destination()] returns the all-ones address
    again, given that the patched template decodes to the address written
    (and, for the general jump, that the updated reference slot lies outside
    the template). *)
Theorem unresolved_jump_round_trip (P : platform) (this : address) (s : state) :
  minus_one = 2 ^ 64 - 1 /\
  (target_addr_for_insn_or_null P (mem s) this = this \/
   target_addr_for_insn_or_null P (mem s) this = nullptr ->
   NativeJump.jump_destination P this s = Done minus_one s) /\
  (forall d, NativeMovConstReg.data P this s = Done d s ->
             Int.ptr d = this \/ Int.ptr d = nullptr ->
             NativeGeneralJump.jump_destination P this s = Done minus_one s) /\
  (exists s',
     NativeJump.set_jump_destination P this minus_one s = Done tt s' /\
     mem s' = pd_patch_instruction P (mem s) this this /\
     log s' = log s ++ [EvPatchInstruction this this; EvInvalidate this 4] /\
     (target_addr_for_insn_or_null P (mem s') this = this ->
      NativeJump.jump_destination P this s' = Done minus_one s')) /\
  (forall cb ext,
     find_blob P this = Some cb ->
     0 <= this < 2 ^ 64 ->
     maybe_cpool_ref_insn P (load32 (mem s) this) = false ->
     let m1 := pd_patch_instruction P (mem s) this this in
     target_addr_for_insn P m1 this = this ->
     maybe_cpool_ref_insn P (load32 m1 this) = false ->
     decoder_local P ext -> 4 <= ext ->
     (forall r, find is_reference (records_at P cb m1 this) = Some r ->
                disjoint (reloc_slot r) 8 this ext) ->
     exists s',
       NativeGeneralJump.set_jump_destination P this minus_one s = Done tt s' /\
       NativeMovConstReg.data P this s' = Done (Int.intptr this) s' /\
       NativeGeneralJump.jump_destination P this s' = Done minus_one s').
Proof.
  split; [reflexivity|]. split; [|split; [|split]].
  - intros H. rewrite jump_destination_runs. cbv zeta.
    destruct H as [-> | ->]; [now rewrite Z.eqb_refl|].
    rewrite (Z.eqb_refl nullptr). now rewrite orb_true_r.
  - intros d Hd H. rewrite (general_jump_destination_runs P this s d Hd).
    destruct H as [-> | ->]; [now rewrite Z.eqb_refl|].
    rewrite (Z.eqb_refl nullptr). now rewrite orb_true_r.
  - eexists. split; [apply set_jump_destination_unresolved|].
    split; [reflexivity|]. split; [reflexivity|].
    intros H. rewrite jump_destination_runs. cbv zeta. rewrite H.
    now rewrite Z.eqb_refl.
  - intros cb ext Hb Hthis Hnp m1 Hrt Hstill Hloc Hext Hsep.
    pose proof (ptr_intptr this Hthis) as Hpi.
    rewrite general_set_jump_destination_unresolved.
    eexists. split; [apply (set_data_runs P this (Int.intptr this) s cb Hb)|].
    assert (Hdata : forall s', NativeMovConstReg.set_data P this (Int.intptr this) s
                               = Done tt s' ->
                               NativeMovConstReg.data P this s'
                               = Done (Int.intptr this) s').
    { intros s' Hrun.
      apply (data_after_set_data_inline P this (Int.intptr this) ext s s' cb Hb
               (intptr_range this) Hnp); rewrite ?Hpi; assumption. }
    specialize (Hdata _ (set_data_runs P this (Int.intptr this) s cb Hb)).
    split; [exact Hdata|].
    rewrite (general_jump_destination_runs P this _ _ Hdata), Hpi.
    now rewrite Z.eqb_refl.
Qed.

Lemma unresolved_jump_round_trip_witness :
  let P := Sample.plat true in
  let s := Sample.start Sample.jumps_and_loads in
  returned (NativeJump.jump_destination P 0x10000200 s) = Some 0x10000240 /\
  (exists s',
     NativeJump.set_jump_destination P 0x10000200 minus_one s = Done tt s' /\
     load32 (mem s') 0x10000200 = Sample.b_self /\
     NativeJump.jump_destination P 0x10000200 s' = Done minus_one s') /\
  (exists s',
     NativeGeneralJump.set_jump_destination P 0x10000100 minus_one s = Done tt s' /\
     NativeMovConstReg.data P 0x10000100 s' = Done 0x10000100 s' /\
     NativeGeneralJump.jump_destination P 0x10000100 s' = Done minus_one s').
Proof.
  intros P s.
  destruct (unresolved_jump_round_trip P 0x10000200 s)
    as (_ & _ & _ & (s1 & Hset & Hmem & _ & Hback) & _).
  destruct (unresolved_jump_round_trip P 0x10000100 s)
    as (_ & _ & _ & _ & Hgen).
  split; [reflexivity|]. split.
  - exists s1. split; [exact Hset|]. split.
    + rewrite Hmem. reflexivity.
    + apply Hback. rewrite Hmem. reflexivity.
  - apply (Hgen (Blob_nmethod Sample.unit_nm) 12).
    + reflexivity.
    + lia.
    + reflexivity.
    + reflexivity.
    + reflexivity.
    + apply sample_decoder_local.
    + lia.
    + intros r Hr. vm_compute in Hr. injection Hr as <-. right. cbn. lia.
Defined.

(** ** NativeMovRegMem *)

Lemma load8_store64 (m : memory) (a v : Z) : load8 (store 8 m a v) a = v mod 256.
Proof.
  unfold load8. rewrite (load_of_bytes 1 _ a v); [reflexivity|].
  intros i Hi. assert (i = 0) as -> by (simpl in Hi; lia).
  rewrite store_spec. replace ((a <=? a + 0) && (a + 0 <? a + Z.of_nat 8)) with true by lia.
  now replace (a + 0 - a) with 0 by lia.
Qed.

(** C6, evaluated on the code.  At a site that [set_offset] treats as a pool
    reference, [set_offset(x)] stores [x] as a 64-bit value at the computed
    pool address.  [offset()] then, at an address-of-page site, reads back
    one byte through that address and returns [x mod 256], which is [x] only
    for [0 <= x <= 255]; at a pool-reference site of another form it returns
    the pool address itself, whatever [x] was. *)
Theorem offset_after_set_offset_pool (P : platform) (this x : Z) (s : state) :
  let insn := load32 (mem s) this in
  let pool := target_addr_for_insn P (mem s) this in
  maybe_cpool_ref_insn P insn = true ->
  disjoint pool 8 this 4 ->
  target_addr_for_insn P (store 8 (mem s) pool (Int.uint64 x)) this = pool ->
  exists s',
    NativeMovRegMem.set_offset P this x s = Done tt s' /\
    log s' = log s ++ [EvStore pool 8 (Int.uint64 x)] /\
    load64 (mem s') pool = Int.uint64 x /\
    NativeMovRegMem.offset P this s'
    = Done (if Instruction_aarch64.extract insn 28 24 =? 0x10
            then x mod 256
            else Int.int32 (Int.intptr pool)) s'.
Proof.
  intros insn pool Hp Hdis Hframe.
  unfold NativeMovRegMem.set_offset. mrun. rewrite Z.add_0_r.
  fold insn. rewrite Hp. mrun. fold pool.
  change (x mod 2 ^ (8 * Z.of_nat 8)) with (Int.uint64 x).
  eexists. split; [reflexivity|]. split; [reflexivity|]. split.
  - cbn [mem]. now rewrite load64_store64, uint64_idem.
  - unfold NativeMovRegMem.offset. mrun. rewrite !Z.add_0_r.
    rewrite (load_store_disjoint 8 4) by exact Hdis.
    change (load 4 (mem s) this) with insn.
    destruct (Instruction_aarch64.extract insn 28 24 =? 16); cbn [mem];
      rewrite Hframe; [|reflexivity].
    rewrite load8_store64. unfold Int.uint64.
    f_equal. change (2 ^ 64) with (256 * 2 ^ 56).
    rewrite Z.rem_mul_r by lia.
    rewrite (Z.mul_comm 256), Z.mod_add by lia. apply Z.mod_mod. lia.
Qed.

Lemma offset_after_set_offset_pool_witness :
  let P := Sample.plat true in
  let s := Sample.start Sample.jumps_and_loads in
  exists s',
    NativeMovRegMem.set_offset P 0x10000300 256 s = Done tt s' /\
    log s' = [EvStore 0x10001000 8 256] /\
    load64 (mem s') 0x10001000 = 256 /\
    NativeMovRegMem.offset P 0x10000300 s' = Done 0 s'.
Proof.
  intros P s.
  apply (offset_after_set_offset_pool P 0x10000300 256 s).
  - reflexivity.
  - right. cbn. lia.
  - reflexivity.
Defined.

(** * Further properties of the operations *)

(** ** [set_destination_mt_safe] for any target *)

(** The run of [set_destination_mt_safe(dest)] whenever its assertions hold:
    the slot of the trampoline, if the call has one, is written first, then
    the call word, for [dest] itself when it is reachable and for the
    trampoline otherwise. *)
Lemma redirection_runs (P : platform) (nm : nmethod) (this dest : address) (s : state) :
  let tramp := trampoline_of P nm (mem s) this in
  let slot := tramp + data_offset P in
  let reachable := reachable_from_branch_at P this dest in
  let m1 := if tramp =? nullptr then mem s else store 8 (mem s) slot (Int.uint64 dest) in
  let w := encode_call P ((if reachable then dest else tramp) - this) in
  find_blob P this = Some (Blob_nmethod nm) ->
  (ASSERT P = true ->
     patching_is_safe P this = true /\
     is_call_insn P (load32 (mem s) this) = true /\
     (tramp <> nullptr -> is_NativeCallTrampolineStub_at P (mem s) dest = false) /\
     (reachable = false -> tramp <> nullptr)) ->
  NativeCall.set_destination_mt_safe P this dest s
  = Done tt (mkState (store 4 m1 this (Int.uint32 w))
       (log s ++ [EvFindBlob this]
              ++ (if tramp =? nullptr then []
                  else [EvStore slot 8 (Int.uint64 dest); EvRelease])
              ++ [EvStore this 4 (Int.uint32 w); EvInvalidate this 4])).
Proof.
  intros tramp slot reachable m1 w Hblob Hpre.
  unfold NativeCall.set_destination_mt_safe, addr_at. rewrite !Z.add_0_r.
  erewrite bind_done
    by (apply assert_holds; intros H; apply (Hpre H)).
  erewrite bind_done by reflexivity.
  erewrite bind_done
    by (apply assert_holds; intros H; rewrite Z.add_0_r; apply (Hpre H)).
  erewrite bind_done by apply (get_trampoline_runs P nm this dest s Hblob).
  fold tramp. fold reachable. subst m1 w.
  destruct (Z.eqb_spec tramp nullptr) as [Hnull|Hnn]; cbn [negb];
    destruct reachable eqn:Hr.
  - erewrite bind_done by reflexivity.
    erewrite bind_done by reflexivity.
    unfold ICache_invalidate_range, emit. cbn [mem log].
    unfold NativeCall.displacement_offset, instruction_address, addr_at.
    rewrite !Z.add_0_r, <- !app_assoc. reflexivity.
  - erewrite bind_done by reflexivity.
    erewrite bind_done.
    2:{ erewrite bind_done; [reflexivity|].
        apply assert_holds. intros H. destruct (Hpre H) as (_ & _ & _ & Hneed).
        exfalso. now apply Hneed. }
    unfold ICache_invalidate_range, emit. cbn [mem log].
    unfold NativeCall.displacement_offset, instruction_address, addr_at.
    rewrite !Z.add_0_r, <- !app_assoc. reflexivity.
  - erewrite bind_done.
    2:{ erewrite bind_done by reflexivity.
        erewrite bind_done; [reflexivity|].
        apply assert_holds. intros H. cbn [mem].
        destruct (Hpre H) as (_ & _ & Hch & _). now rewrite (Hch Hnn). }
    erewrite bind_done by reflexivity.
    unfold ICache_invalidate_range, emit. cbn [mem log].
    unfold NativeCall.displacement_offset, instruction_address, addr_at.
    rewrite !Z.add_0_r, <- !app_assoc. reflexivity.
  - erewrite bind_done.
    2:{ erewrite bind_done by reflexivity.
        erewrite bind_done; [reflexivity|].
        apply assert_holds. intros H. cbn [mem].
        destruct (Hpre H) as (_ & _ & Hch & _). now rewrite (Hch Hnn). }
    erewrite bind_done.
    2:{ erewrite bind_done; [reflexivity|].
        apply assert_holds. intros _. reflexivity. }
    unfold ICache_invalidate_range, emit. cbn [mem log].
    unfold NativeCall.displacement_offset, instruction_address, addr_at.
    rewrite !Z.add_0_r, <- !app_assoc. reflexivity.
Qed.

Lemma bind_abort {A B} (c : M A) (k : A -> M B) (s s' : state) (f : failure) :
  c s = Abort f s' -> bind c k s = Abort f s'.
Proof. intros H. unfold bind. now rewrite H. Qed.

Lemma assert_fails (P : platform) (c : bool) (s : state) :
  ASSERT P = true -> c = false -> assert_ P c s = Abort AssertionFailure s.
Proof. intros HA ->. unfold assert_. now rewrite HA. Qed.

Lemma no_store_in_lookup (l : list event) (a : address) :
  existsb is_store (l ++ [EvFindBlob a]) = existsb is_store l.
Proof. rewrite existsb_app. cbn. now rewrite orb_false_r. Qed.

(** X1.  For a target within the branch range, [set_destination_mt_safe]
    rewrites the call word to branch to the target itself.  When the call
    has a trampoline stub, the stub's slot is still set to the target, with
    its release fence, before the call word is written; when it has none, the
    call word is the only store.  The instruction cache is invalidated over
    the call word last.  Afterwards [destination()] returns the target, the
    platform encoding this distance and the target lying outside the unit's
    stub region. *)
Theorem reachable_target_patched_directly
  (P : platform) (nm : nmethod) (this dest : address) (s : state) :
  let tramp := trampoline_of P nm (mem s) this in
  let slot := tramp + data_offset P in
  let w := encode_call P (dest - this) in
  find_blob P this = Some (Blob_nmethod nm) ->
  (ASSERT P = true ->
     patching_is_safe P this = true /\
     is_call_insn P (load32 (mem s) this) = true /\
     (tramp <> nullptr -> is_NativeCallTrampolineStub_at P (mem s) dest = false)) ->
  reachable_from_branch_at P this dest = true ->
  exists s',
    NativeCall.set_destination_mt_safe P this dest s = Done tt s' /\
    log s' = log s ++ [EvFindBlob this]
                   ++ (if tramp =? nullptr then []
                       else [EvStore slot 8 (Int.uint64 dest); EvRelease])
                   ++ [EvStore this 4 (Int.uint32 w); EvInvalidate this 4] /\
    load32 (mem s') this = Int.uint32 w /\
    (tramp <> nullptr -> 0 <= dest < 2 ^ 64 -> disjoint slot 8 this 4 ->
     load64 (mem s') slot = dest) /\
    (decode_displacement P (Int.uint32 w) = dest - this ->
     stub_contains nm dest = false ->
     returned (NativeCall.destination P this s') = Some dest).
Proof.
  intros tramp slot w Hblob Hpre Hnear.
  pose proof (redirection_runs P nm this dest s Hblob) as Hrun.
  cbv zeta in Hrun. fold tramp slot in Hrun. rewrite Hnear in Hrun.
  rewrite Hrun.
  2:{ intros H. destruct (Hpre H) as (H1 & H2 & H3).
      repeat split; try assumption. discriminate. }
  eexists. split; [reflexivity|]. split; [reflexivity|]. cbn [mem].
  fold w. split; [|split].
  - now rewrite load32_store32, uint32_idem.
  - intros Hnn Hdest Hdis.
    replace (tramp =? nullptr) with false by lia.
    rewrite (load_store_disjoint 4 8) by (destruct Hdis; [right|left]; simpl; lia).
    rewrite load64_store64, uint64_idem. unfold Int.uint64. now apply Z.mod_small.
  - intros Hcodec Hout.
    set (m2 := store 4 _ this (Int.uint32 w)).
    assert (Ht : this + decode_displacement P (load32 m2 this) = dest).
    { unfold m2. rewrite load32_store32, uint32_idem, Hcodec. lia. }
    destruct (Z.eq_dec dest this) as [Heq|Hne].
    + rewrite destination_self by (cbn [mem]; rewrite Ht; exact Heq).
      cbn. now rewrite Heq.
    + rewrite (destination_runs P this _ nm Hblob) by (cbn [mem]; now rewrite Ht).
      cbn [mem returned]. rewrite Ht, Hout. reflexivity.
Qed.

Lemma reachable_target_patched_directly_witness :
  let P := Sample.plat true in
  let s := Sample.start Sample.trampolined_call in
  exists s',
    NativeCall.set_destination_mt_safe P 0x10000000 0x10000800 s = Done tt s' /\
    log s' = [EvFindBlob 0x10000000; EvStore 0x10008008 8 0x10000800; EvRelease;
              EvStore 0x10000000 4 0x94000200; EvInvalidate 0x10000000 4] /\
    load64 (mem s') 0x10008008 = 0x10000800 /\
    returned (NativeCall.destination P 0x10000000 s') = Some 0x10000800.
Proof.
  intros P s.
  destruct (reachable_target_patched_directly P Sample.unit_nm
              0x10000000 0x10000800 s)
    as (s' & Hrun & Hlog & _ & Hslot & Hdest).
  - reflexivity.
  - intros _. repeat split; reflexivity.
  - reflexivity.
  - exists s'. split; [exact Hrun|]. split; [exact Hlog|]. split.
    + apply Hslot.
      * vm_compute. discriminate.
      * lia.
      * right. vm_compute. discriminate.
    + apply Hdest; reflexivity.
Defined.

(** X2.  In a build with assertions, [set_destination_mt_safe] stores nothing
    when one of its assertions fails: patching is not safe, the site holds
    no call, the target is itself a trampoline stub while the call has one
    ("chained trampolines"), or the target is out of range and the call has
    no trampoline ("we need a trampoline").  It stops with an assertion
    failure, the memory is the one it was called with and no store is
    logged. *)
Theorem failed_assertion_stores_nothing
  (P : platform) (nm : nmethod) (this dest : address) (s : state) :
  let tramp := trampoline_of P nm (mem s) this in
  ASSERT P = true ->
  find_blob P this = Some (Blob_nmethod nm) ->
  patching_is_safe P this = false \/
  is_call_insn P (load32 (mem s) this) = false \/
  (tramp <> nullptr /\ is_NativeCallTrampolineStub_at P (mem s) dest = true) \/
  (tramp = nullptr /\ reachable_from_branch_at P this dest = false) ->
  exists st,
    NativeCall.set_destination_mt_safe P this dest s = Abort AssertionFailure st /\
    mem st = mem s /\
    existsb is_store (log st) = existsb is_store (log s).
Proof.
  intros tramp HA Hblob Hbad.
  unfold NativeCall.set_destination_mt_safe, addr_at. rewrite !Z.add_0_r.
  destruct (patching_is_safe P this) eqn:Hsafe.
  2:{ erewrite bind_abort by (apply assert_fails; [exact HA | reflexivity]).
      eexists. repeat split. }
  erewrite bind_done by (apply assert_holds; reflexivity).
  erewrite bind_done by reflexivity. cbn [mem]. rewrite Z.add_0_r.
  destruct (is_call_insn P (load32 (mem s) this)) eqn:Hcall.
  2:{ erewrite bind_abort by (apply assert_fails; [exact HA | reflexivity]).
      eexists. repeat split. }
  erewrite bind_done by (apply assert_holds; reflexivity).
  erewrite bind_done by apply (get_trampoline_runs P nm this dest s Hblob).
  fold tramp.
  destruct Hbad as [Hbad|[Hbad|[[Hnn Hch]|[Hnull Hfar]]]]; try discriminate Hbad.
  - replace (tramp =? nullptr) with false by lia. cbn [negb].
    erewrite bind_abort.
    2:{ erewrite bind_done by reflexivity. cbn [mem]. rewrite Hch.
        erewrite bind_abort by (apply assert_fails; [exact HA | reflexivity]).
        reflexivity. }
    eexists. split; [reflexivity|]. split; [reflexivity|].
    cbn [log]. apply no_store_in_lookup.
  - rewrite Hnull, Hfar. cbn [Z.eqb nullptr negb].
    erewrite bind_done by reflexivity.
    erewrite bind_abort.
    2:{ erewrite bind_abort by (apply assert_fails; [exact HA | reflexivity]).
        reflexivity. }
    eexists. split; [reflexivity|]. split; [reflexivity|].
    cbn [log]. apply no_store_in_lookup.
Qed.

Lemma failed_assertion_stores_nothing_witness :
  let P := Sample.plat true in
  let s := Sample.start (Sample.trampolined_call ++ Sample.edge_calls) in
  exists st,
    NativeCall.set_destination_mt_safe P 0x10000080 Sample.far2 s
    = Abort AssertionFailure st /\
    mem st = mem s /\
    existsb is_store (log st) = existsb is_store (log s).
Proof.
  intros P s.
  apply (failed_assertion_stores_nothing P Sample.unit_nm 0x10000080 Sample.far2 s).
  - reflexivity.
  - reflexivity.
  - right. right. right. split; reflexivity.
Defined.

(** X3.  Whatever the target, a [set_destination_mt_safe] that returns has
    written at most the 8 bytes of the trampoline's slot and the 4 bytes of
    the call word: every other byte of memory, the stub's prologue included,
    is as before. *)
Theorem redirection_frame
  (P : platform) (nm : nmethod) (this dest : address) (s : state) :
  let tramp := trampoline_of P nm (mem s) this in
  let slot := tramp + data_offset P in
  find_blob P this = Some (Blob_nmethod nm) ->
  (ASSERT P = true ->
     patching_is_safe P this = true /\
     is_call_insn P (load32 (mem s) this) = true /\
     (tramp <> nullptr -> is_NativeCallTrampolineStub_at P (mem s) dest = false) /\
     (reachable_from_branch_at P this dest = false -> tramp <> nullptr)) ->
  exists s',
    NativeCall.set_destination_mt_safe P this dest s = Done tt s' /\
    forall i, (i < slot \/ slot + 8 <= i) -> (i < this \/ this + 4 <= i) ->
              mem s' i = mem s i.
Proof.
  intros tramp slot Hblob Hpre.
  rewrite (redirection_runs P nm this dest s Hblob Hpre).
  eexists. split; [reflexivity|]. intros i Hslot Hcall. cbn [mem].
  rewrite store_outside by (simpl Z.of_nat; lia).
  fold tramp. destruct (tramp =? nullptr); [reflexivity|].
  apply store_outside. fold slot. simpl Z.of_nat. lia.
Qed.

Lemma redirection_frame_witness :
  let P := Sample.plat true in
  let s := Sample.start Sample.trampolined_call in
  exists s',
    NativeCall.set_destination_mt_safe P 0x10000000 Sample.far2 s = Done tt s' /\
    forall i, (i < 0x10008008 \/ 0x10008010 <= i) ->
              (i < 0x10000000 \/ 0x10000004 <= i) ->
              mem s' i = mem s i.
Proof.
  intros P s.
  apply (redirection_frame P Sample.unit_nm 0x10000000 Sample.far2 s).
  - reflexivity.
  - intros _. repeat split; try reflexivity. vm_compute. discriminate.
Defined.

(** X4.  A far redirection does not change which trampoline belongs to the
    call: afterwards the call's displacement leads to the same stub,
    [get_trampoline()] returns it and the layout of call and stub is intact.
    A second far redirection therefore reuses the stub, and the call
    resolves to the target given last. *)
Theorem trampoline_kept_across_redirections
  (P : platform) (nm : nmethod) (this dest dest2 : address) (s : state) :
  let tramp := trampoline_of P nm (mem s) this in
  let s1 := final (NativeCall.set_destination_mt_safe P this dest s) in
  let s2 := final (NativeCall.set_destination_mt_safe P this dest2 s1) in
  find_blob P this = Some (Blob_nmethod nm) ->
  (ASSERT P = true -> patching_preconditions P (mem s) this dest) ->
  reachable_from_branch_at P this dest = false ->
  tramp <> nullptr ->
  call_layout P nm (mem s) this tramp ->
  0 <= dest < 2 ^ 64 ->
  trampoline_of P nm (mem s1) this = tramp /\
  returned (NativeCall.get_trampoline P this s1) = Some tramp /\
  call_layout P nm (mem s1) this tramp /\
  ((ASSERT P = true -> patching_preconditions P (mem s1) this dest2) ->
   reachable_from_branch_at P this dest2 = false ->
   0 <= dest2 < 2 ^ 64 ->
   returned (NativeCall.set_destination_mt_safe P this dest2 s1) = Some tt /\
   returned (NativeCallTrampolineStub.destination P tramp s2) = Some dest2 /\
   returned (NativeCall.destination P this s2) = Some dest2).
Proof.
  intros tramp s1 s2 Hblob Hpre Hfar Htramp Hlay Hdest.
  pose proof (far_redirection_runs P nm this dest s Hblob Hpre Hfar Htramp) as Hrun.
  pose proof (call_word_m2 P nm this dest s Hblob Hpre Hfar Htramp Hlay Hdest) as Hw.
  pose proof (prologue_m2 P nm this dest s Hblob Hpre Hfar Htramp Hlay Hdest) as Hp.
  assert (Hmem : mem s1
                 = store 4 (store 8 (mem s) (tramp + data_offset P) (Int.uint64 dest))
                     this (Int.uint32 (encode_call P (tramp - this)))).
  { unfold s1. now rewrite Hrun. }
  assert (Hkept : trampoline_of P nm (mem s1) this = tramp).
  { unfold trampoline_of at 1. rewrite Hmem. fold tramp in Hw, Hp. rewrite Hw.
    destruct Hlay as [_ _ Hr _ _ He]. rewrite He.
    replace (this + (tramp - this)) with tramp by lia.
    now rewrite Hr, Hp. }
  assert (Hlay1 : call_layout P nm (mem s1) this tramp).
  { destruct Hlay as [H1 H2 H3 H4 H5 H6]. constructor; try assumption.
    rewrite Hmem. exact Hp. }
  split; [exact Hkept|]. split; [|split; [exact Hlay1|]].
  - rewrite (get_trampoline_runs P nm this dest s1 Hblob), Hkept. reflexivity.
  - intros Hpre2 Hfar2 Hdest2.
    assert (Htramp1 : trampoline_of P nm (mem s1) this <> nullptr)
      by now rewrite Hkept.
    rewrite <- Hkept in Hlay1.
    pose proof (far_redirection_runs P nm this dest2 s1 Hblob Hpre2 Hfar2 Htramp1)
      as Hrun2.
    pose proof (slot_m2 P nm this dest2 s1 Hblob Hpre2 Hfar2 Htramp1 Hlay1 Hdest2)
      as Hslot2.
    pose proof (destination_m2 P nm this dest2 s1 Hblob Hpre2 Hfar2 Htramp1 Hlay1
                  Hdest2) as Hdest_after.
    unfold s2. rewrite Hrun2. cbn [final returned]. split; [reflexivity|]. split.
    + rewrite stub_destination_runs. cbn [mem returned]. rewrite <- Hkept.
      now rewrite Hslot2.
    + now rewrite Hdest_after.
Qed.

Lemma trampoline_kept_across_redirections_witness :
  let P := Sample.plat true in
  let s := Sample.start Sample.trampolined_call in
  let s1 := final (NativeCall.set_destination_mt_safe P 0x10000000 Sample.far2 s) in
  let s2 := final (NativeCall.set_destination_mt_safe P 0x10000000 Sample.far s1) in
  returned (NativeCall.get_trampoline P 0x10000000 s1) = Some 0x10008000 /\
  returned (NativeCall.destination P 0x10000000 s2) = Some Sample.far.
Proof.
  intros P s s1 s2.
  destruct (trampoline_kept_across_redirections P Sample.unit_nm
              0x10000000 Sample.far2 Sample.far s)
    as (_ & Hget & _ & Hsecond).
  - reflexivity.
  - intros _. repeat split; reflexivity.
  - reflexivity.
  - vm_compute. discriminate.
  - exact sample_call_layout.
  - unfold Sample.far2. lia.
  - split; [exact Hget|]. apply Hsecond.
    + intros _. repeat split; reflexivity.
    + reflexivity.
    + unfold Sample.far. lia.
Defined.

(** ** NativeCallTrampolineStub *)

(** X5.  [set_destination(d)] of a trampoline stub writes the 8 bytes of the
    slot at [data_offset] and then issues the release fence, nothing else;
    [destination()] afterwards returns [d] as a 64-bit pointer.  The bytes
    before and after the slot are untouched, so with the slot placed after
    the prologue a recognized stub stays recognized. *)
Theorem stub_destination_round_trip (P : platform) (stub d : address) (s : state) :
  let slot := stub + data_offset P in
  exists s',
    NativeCallTrampolineStub.set_destination P stub d s = Done tt s' /\
    log s' = log s ++ [EvStore slot 8 (Int.ptr d); EvRelease] /\
    NativeCallTrampolineStub.destination P stub s' = Done (Int.ptr d) s' /\
    (0 <= d < 2 ^ 64 -> NativeCallTrampolineStub.destination P stub s' = Done d s') /\
    (forall i, i < slot \/ slot + 8 <= i -> mem s' i = mem s i) /\
    (0 <= data_offset P -> stub_recognition_local P ->
     is_NativeCallTrampolineStub_at P (mem s') stub
     = is_NativeCallTrampolineStub_at P (mem s) stub).
Proof.
  intros slot.
  unfold NativeCallTrampolineStub.set_destination,
    NativeCallTrampolineStub.set_ptr_at. mrun. fold slot.
  change (d mod 2 ^ (8 * Z.of_nat 8)) with (Int.ptr d).
  rewrite <- app_assoc. cbn [app].
  eexists. split; [reflexivity|]. split; [reflexivity|].
  assert (Hback : NativeCallTrampolineStub.destination P stub
                    (mkState (store 8 (mem s) slot (Int.ptr d))
                             (log s ++ [EvStore slot 8 (Int.ptr d); EvRelease]))
                  = Done (Int.ptr d)
                      (mkState (store 8 (mem s) slot (Int.ptr d))
                               (log s ++ [EvStore slot 8 (Int.ptr d); EvRelease]))).
  { rewrite stub_destination_runs. cbn [mem]. fold slot.
    rewrite load64_store64. unfold Int.ptr. now rewrite uint64_idem. }
  split; [exact Hback|]. split; [|split].
  - intros Hd. etransitivity; [exact Hback|]. f_equal.
    unfold Int.ptr, Int.uint64. now apply Z.mod_small.
  - intros i Hi. cbn [mem]. apply store_outside. simpl Z.of_nat. lia.
  - intros Ho Hloc. cbn [mem]. apply Hloc. intros i Hi.
    apply store_outside. unfold slot. lia.
Qed.

Lemma stub_destination_round_trip_witness :
  let P := Sample.plat true in
  let s := Sample.start Sample.trampolined_call in
  exists s',
    NativeCallTrampolineStub.set_destination P 0x10008000 Sample.far2 s = Done tt s' /\
    NativeCallTrampolineStub.destination P 0x10008000 s' = Done Sample.far2 s' /\
    is_NativeCallTrampolineStub_at P (mem s') 0x10008000 = true.
Proof.
  intros P s.
  destruct (stub_destination_round_trip P 0x10008000 Sample.far2 s)
    as (s' & Hrun & _ & _ & Hback & _ & Hrec).
  exists s'. split; [exact Hrun|]. split.
  - apply Hback. unfold Sample.far2. lia.
  - rewrite Hrec; [reflexivity | cbn; lia | apply sample_stub_local].
Defined.

(** ** NativePostCallNop *)

Lemma movk_to_zr_mask : 0xffe0001f = Z.lor (Z.ones 5) (Z.shiftl (Z.ones 11) 21).
Proof. reflexivity. Qed.

(** Rewriting the immediate field [20..5] leaves the movk-to-zero-register
    shape of a word as it is. *)
Lemma movk_to_zr_patched (t v : Z) :
  0 <= t < 2 ^ 32 -> 0 <= v < 2 ^ 16 ->
  NativePostCallNop.is_movk_to_zr
    (Int.uint32 (Z.lor (Z.ldiff t (Z.shiftl (Z.ones (20 - 5 + 1)) 5))
                       (Int.uint32 (Z.shiftl v 5))))
  = NativePostCallNop.is_movk_to_zr t.
Proof.
  intros Ht Hv. unfold NativePostCallNop.is_movk_to_zr. f_equal.
  rewrite movk_to_zr_mask. unfold Int.uint32. change (20 - 5 + 1) with 16.
  rewrite <- (Z.mod_small t (2 ^ 32)) by lia.
  rewrite <- (Z.mod_small v (2 ^ 16)) by lia.
  rewrite <- !Z.land_ones by lia.
  Z.bitblast.
Qed.

Lemma patch_runs (P : platform) (this slot off : Z) (s : state) :
  0 <= slot <= 255 -> 0 <= off <= 0xFFFFFF ->
  (ASSERT P = true ->
     (slot <> 0 \/ off <> 0) /\
     NativePostCallNop.is_movk_to_zr (load32 (mem s) (this + 4)) = true /\
     NativePostCallNop.is_movk_to_zr (load32 (mem s) (this + 8)) = true) ->
  let data := Z.lor (Int.uint32 (Z.shiftl (Int.uint32 slot) 24)) (Int.uint32 off) in
  let mask := Z.shiftl (Z.ones (20 - 5 + 1)) 5 in
  let w1 := Int.uint32 (Z.lor (Z.ldiff (load32 (mem s) (this + 4)) mask)
                              (Int.uint32 (Z.shiftl (Z.land data 0xffff) 5))) in
  let w2 := Int.uint32 (Z.lor (Z.ldiff (load32 (mem s) (this + 8)) mask)
                              (Int.uint32 (Z.shiftl (Z.shiftr data 16) 5))) in
  NativePostCallNop.patch P this slot off s
  = Done true (mkState (store 4 (store 4 (mem s) (this + 4) w1) (this + 8) w2)
                       (log s ++ [EvStore (this + 4) 4 w1; EvStore (this + 8) 4 w2])).
Proof.
  intros Hs Ho Hdbg data mask w1 w2.
  destruct (packed_data_fields slot off Hs Ho) as (Hr & _ & _ & _ & Hz).
  fold data in Hr, Hz.
  assert (Hlo : 0 <= Z.land data 0xffff < 2 ^ 16).
  { change 0xffff with (Z.ones 16). rewrite Z.land_ones by lia.
    apply Z.mod_pos_bound. lia. }
  assert (Hhi : 0 <= Z.shiftr data 16 < 2 ^ 16).
  { rewrite Z.shiftr_div_pow2 by lia. split.
    - apply Z.div_pos; lia.
    - apply Z.div_lt_upper_bound; lia. }
  unfold NativePostCallNop.patch.
  replace (negb (Z.land slot 255 =? slot) || negb (Z.land off 16777215 =? off))
    with false.
  2:{ symmetry. apply orb_false_iff. split; apply negb_false_iff;
      [apply slot_check | apply offset_check]; assumption. }
  fold data.
  erewrite bind_done with (a := tt) (s' := s).
  2:{ destruct (ASSERT P) eqn:EA; [|reflexivity].
      destruct (Hdbg eq_refl) as (Hnz & H1 & H2).
      mrun. rewrite EA.
      replace (negb (data =? 0)) with true by (symmetry; apply negb_true_iff; lia).
      cbn [negb andb]. rewrite H1, H2. reflexivity. }
  erewrite bind_done by (apply patch_imm16_runs; exact Hlo).
  erewrite bind_done by (apply patch_imm16_runs; exact Hhi).
  cbn [mem log]. unfold addr_at.
  rewrite (load_store_disjoint 4 4) by (left; simpl; lia).
  rewrite <- app_assoc. reflexivity.
Qed.

(** The two words [patch] leaves behind have the shape of the words it
    found. *)
Lemma patched_words_keep_shape (m : memory) (this lo hi : Z) :
  0 <= lo < 2 ^ 16 -> 0 <= hi < 2 ^ 16 ->
  let mask := Z.shiftl (Z.ones (20 - 5 + 1)) 5 in
  let w1 := Int.uint32 (Z.lor (Z.ldiff (load32 m (this + 4)) mask)
                              (Int.uint32 (Z.shiftl lo 5))) in
  let w2 := Int.uint32 (Z.lor (Z.ldiff (load32 m (this + 8)) mask)
                              (Int.uint32 (Z.shiftl hi 5))) in
  let m' := store 4 (store 4 m (this + 4) w1) (this + 8) w2 in
  NativePostCallNop.is_movk_to_zr (load32 m' (this + 4))
  = NativePostCallNop.is_movk_to_zr (load32 m (this + 4)) /\
  NativePostCallNop.is_movk_to_zr (load32 m' (this + 8))
  = NativePostCallNop.is_movk_to_zr (load32 m (this + 8)).
Proof.
  intros Hlo Hhi mask w1 w2 m'. subst m'. split.
  - rewrite (load_store_disjoint 4 4) by (right; simpl; lia).
    rewrite load32_store32. unfold w1. rewrite uint32_idem.
    apply movk_to_zr_patched; [apply load32_range | exact Hlo].
  - rewrite load32_store32. unfold w2. rewrite uint32_idem.
    apply movk_to_zr_patched; [apply load32_range | exact Hhi].
Qed.

(** X6.  A successful [patch] changes only the 8 bytes of the two placeholder
    instructions, and in them only the immediate fields: a movk-to-zero-
    register placeholder is still one afterwards.  It logs the two stores
    and performs no instruction-cache invalidation. *)
Theorem patch_keeps_placeholders (P : platform) (this slot off : Z) (s : state) :
  0 <= slot <= 255 -> 0 <= off <= 0xFFFFFF ->
  (ASSERT P = true ->
     (slot <> 0 \/ off <> 0) /\
     NativePostCallNop.is_movk_to_zr (load32 (mem s) (this + 4)) = true /\
     NativePostCallNop.is_movk_to_zr (load32 (mem s) (this + 8)) = true) ->
  exists s',
    NativePostCallNop.patch P this slot off s = Done true s' /\
    (forall i, i < this + 4 \/ this + 12 <= i -> mem s' i = mem s i) /\
    NativePostCallNop.is_movk_to_zr (load32 (mem s') (this + 4))
    = NativePostCallNop.is_movk_to_zr (load32 (mem s) (this + 4)) /\
    NativePostCallNop.is_movk_to_zr (load32 (mem s') (this + 8))
    = NativePostCallNop.is_movk_to_zr (load32 (mem s) (this + 8)) /\
    (exists w1 w2, log s' = log s ++ [EvStore (this + 4) 4 w1; EvStore (this + 8) 4 w2]) /\
    existsb is_invalidate (log s') = existsb is_invalidate (log s).
Proof.
  intros Hs Ho Hdbg.
  destruct (packed_data_fields slot off Hs Ho) as (Hr & _ & _ & _ & _).
  set (data := Z.lor (Int.uint32 (Z.shiftl (Int.uint32 slot) 24)) (Int.uint32 off)) in *.
  assert (Hlo : 0 <= Z.land data 0xffff < 2 ^ 16).
  { change 0xffff with (Z.ones 16). rewrite Z.land_ones by lia.
    apply Z.mod_pos_bound. lia. }
  assert (Hhi : 0 <= Z.shiftr data 16 < 2 ^ 16).
  { rewrite Z.shiftr_div_pow2 by lia. split.
    - apply Z.div_pos; lia.
    - apply Z.div_lt_upper_bound; lia. }
  rewrite (patch_runs P this slot off s Hs Ho Hdbg). cbv zeta. fold data.
  eexists. split; [reflexivity|]. cbn [mem log].
  split; [|split; [|split; [|split]]].
  - intros i Hi. rewrite !store_outside by (simpl Z.of_nat; lia). reflexivity.
  - apply (patched_words_keep_shape (mem s) this _ _ Hlo Hhi).
  - apply (patched_words_keep_shape (mem s) this _ _ Hlo Hhi).
  - do 2 eexists. reflexivity.
  - rewrite existsb_app. cbn. now rewrite orb_false_r.
Qed.

Lemma patch_keeps_placeholders_witness :
  let P := Sample.plat true in
  let s := Sample.start [(0x10000004, Sample.movk_zr); (0x10000008, Sample.movk_zr)] in
  exists s',
    NativePostCallNop.patch P 0x10000000 7 0x1234 s = Done true s' /\
    NativePostCallNop.is_movk_to_zr (load32 (mem s') 0x10000004) = true /\
    NativePostCallNop.is_movk_to_zr (load32 (mem s') 0x10000008) = true /\
    mem s' 0x10000000 = mem s 0x10000000.
Proof.
  intros P s.
  destruct (patch_keeps_placeholders P 0x10000000 7 0x1234 s)
    as (s' & Hrun & Hframe & H1 & H2 & _).
  - lia.
  - lia.
  - intros _. split; [left; lia|]. split; reflexivity.
  - exists s'. split; [exact Hrun|]. split; [|split].
    + etransitivity; [exact H1 | reflexivity].
    + etransitivity; [exact H2 | reflexivity].
    + apply Hframe. left. lia.
Defined.

(** X7.  [patch] can be applied again: after a second successful [patch] the
    two immediate fields decode to the pair given last, whatever the first
    pair was. *)
Theorem patch_overwrites (P : platform) (this slot1 off1 slot2 off2 : Z) (s : state) :
  0 <= slot1 <= 255 -> 0 <= off1 <= 0xFFFFFF ->
  0 <= slot2 <= 255 -> 0 <= off2 <= 0xFFFFFF ->
  (ASSERT P = true ->
     (slot1 <> 0 \/ off1 <> 0) /\ (slot2 <> 0 \/ off2 <> 0) /\
     NativePostCallNop.is_movk_to_zr (load32 (mem s) (this + 4)) = true /\
     NativePostCallNop.is_movk_to_zr (load32 (mem s) (this + 8)) = true) ->
  exists s1 s2 data,
    NativePostCallNop.patch P this slot1 off1 s = Done true s1 /\
    NativePostCallNop.patch P this slot2 off2 s1 = Done true s2 /\
    NativePostCallNop.packed_data this s2 = Done data s2 /\
    NativePostCallNop.slot_of data = slot2 /\
    NativePostCallNop.offset_of data = off2.
Proof.
  intros Hs1 Ho1 Hs2 Ho2 Hdbg.
  assert (Hdbg1 : ASSERT P = true ->
     (slot1 <> 0 \/ off1 <> 0) /\
     NativePostCallNop.is_movk_to_zr (load32 (mem s) (this + 4)) = true /\
     NativePostCallNop.is_movk_to_zr (load32 (mem s) (this + 8)) = true).
  { intros H. destruct (Hdbg H) as (A & _ & B & C). auto. }
  pose proof (patch_runs P this slot1 off1 s Hs1 Ho1 Hdbg1) as Hrun1.
  cbv zeta in Hrun1.
  destruct (packed_data_fields slot1 off1 Hs1 Ho1) as (Hr1 & _).
  set (data1 := Z.lor (Int.uint32 (Z.shiftl (Int.uint32 slot1) 24)) (Int.uint32 off1))
    in *.
  assert (Hlo1 : 0 <= Z.land data1 0xffff < 2 ^ 16).
  { change 0xffff with (Z.ones 16). rewrite Z.land_ones by lia.
    apply Z.mod_pos_bound. lia. }
  assert (Hhi1 : 0 <= Z.shiftr data1 16 < 2 ^ 16).
  { rewrite Z.shiftr_div_pow2 by lia. split.
    - apply Z.div_pos; lia.
    - apply Z.div_lt_upper_bound; lia. }
  destruct (patched_words_keep_shape (mem s) this _ _ Hlo1 Hhi1) as [Hk1 Hk2].
  cbv zeta in Hk1, Hk2.
  set (s1 := mkState _ _) in Hrun1.
  change (store 4 (store 4 (mem s) (this + 4) _) (this + 8) _) with (mem s1)
    in Hk1, Hk2.
  assert (Hdbg2 : ASSERT P = true ->
     (slot2 <> 0 \/ off2 <> 0) /\
     NativePostCallNop.is_movk_to_zr (load32 (mem s1) (this + 4)) = true /\
     NativePostCallNop.is_movk_to_zr (load32 (mem s1) (this + 8)) = true).
  { intros H. destruct (Hdbg H) as (_ & A & B & C).
    rewrite Hk1, Hk2. auto. }
  destruct (packed_data_fields slot2 off2 Hs2 Ho2) as (Hr & Hjoin & Hslot & Hoff & _).
  set (data := Z.lor (Int.uint32 (Z.shiftl (Int.uint32 slot2) 24)) (Int.uint32 off2)) in *.
  assert (Hlo : 0 <= Z.land data 0xffff < 2 ^ 16).
  { change 0xffff with (Z.ones 16). rewrite Z.land_ones by lia.
    apply Z.mod_pos_bound. lia. }
  assert (Hhi : 0 <= Z.shiftr data 16 < 2 ^ 16).
  { rewrite Z.shiftr_div_pow2 by lia. split.
    - apply Z.div_pos; lia.
    - apply Z.div_lt_upper_bound; lia. }
  exists s1. eexists. exists data. split; [exact Hrun1|].
  split; [apply (patch_runs P this slot2 off2 s1 Hs2 Ho2 Hdbg2)|].
  cbv zeta. fold data. split; [|split; assumption].
  unfold NativePostCallNop.packed_data. mrun.
  rewrite load32_store32.
  rewrite !(load_store_disjoint 4 4) by (unfold disjoint; simpl; lia).
  rewrite load32_store32. rewrite !uint32_idem.
  rewrite !extract_imm16_patched by assumption.
  do 2 f_equal. exact Hjoin.
Qed.

Lemma patch_overwrites_witness :
  let P := Sample.plat true in
  let s := Sample.start [(0x10000004, Sample.movk_zr); (0x10000008, Sample.movk_zr)] in
  exists s1 s2 data,
    NativePostCallNop.patch P 0x10000000 255 0xFFFFFF s = Done true s1 /\
    NativePostCallNop.patch P 0x10000000 1 0 s1 = Done true s2 /\
    NativePostCallNop.packed_data 0x10000000 s2 = Done data s2 /\
    NativePostCallNop.slot_of data = 1 /\
    NativePostCallNop.offset_of data = 0.
Proof.
  apply (patch_overwrites (Sample.plat true) 0x10000000 255 0xFFFFFF 1 0); try lia.
  intros _. split; [left; lia|]. split; [left; lia|]. split; reflexivity.
Defined.

(** X8.  [make_deopt] replaces the first instruction of the slot by the
    deopt trap word and invalidates the instruction cache over it; the two
    placeholder instructions behind it are not touched, so the packed
    metadata reads back as before. *)
Theorem make_deopt_keeps_metadata (this : address) (s : state) :
  exists s',
    NativePostCallNop.make_deopt this s = Done tt s' /\
    load32 (mem s') this = 0xd4ade001 /\
    log s' = log s ++ [EvStore this 4 0xd4ade001; EvInvalidate this 4] /\
    (forall i, i < this \/ this + 4 <= i -> mem s' i = mem s i) /\
    returned (NativePostCallNop.packed_data this s')
    = returned (NativePostCallNop.packed_data this s).
Proof.
  unfold NativePostCallNop.make_deopt, NativeDeoptInstruction.insert. mrun.
  rewrite Z.add_0_r, <- app_assoc. cbn [app].
  eexists. split; [reflexivity|]. cbn [mem log].
  split; [|split; [reflexivity|split]].
  - apply load32_store32.
  - intros i Hi. apply store_outside. simpl Z.of_nat. lia.
  - unfold NativePostCallNop.packed_data. mrun. cbn [returned].
    rewrite !(load_store_disjoint 4 4) by (left; simpl; lia). reflexivity.
Qed.

(** ** Trap words and the classifications *)

(** X9.  Neither trap word is what [is_stop] looks for: after
    [NativeIllegalInstruction::insert] (dcps1 #0xdead) and after
    [NativeDeoptInstruction::insert], [is_stop] at the address returns false
    (it tests for dcps1 #0xdeae).  A trapped site is no safepoint poll either,
    and [NativeMovConstReg::verify] ends in a fatal error on it. *)
Theorem trap_words_unrecognized (a : address) (s : state) :
  let si := final (NativeIllegalInstruction.insert a s) in
  let sd := final (NativeDeoptInstruction.insert a s) in
  is_stop a si = Done false si /\
  is_stop a sd = Done false sd /\
  is_safepoint_poll a si = Done false si /\
  is_safepoint_poll a sd = Done false sd /\
  NativeMovConstReg.verify a si = Abort FatalError si /\
  NativeMovConstReg.verify a sd = Abort FatalError sd.
Proof.
  unfold NativeIllegalInstruction.insert, NativeDeoptInstruction.insert,
    is_stop, is_safepoint_poll, is_ldrw_to_zr, NativeMovConstReg.verify,
    is_movz, is_adrp_at, is_ldr_literal_at.
  mrun. rewrite !Z.add_0_r, !load32_store32. repeat split.
Qed.

(** ** Jump sites, for any destination *)

(** X10.  [NativeJump::set_jump_destination(dest)] patches the site once,
    with the site's own address when [dest] is the all-ones marker and with
    [dest] otherwise, and invalidates the instruction cache over the site.
    Where the patched instruction decodes to the address written,
    [jump_destination()] then returns [dest] again, except that a
    destination equal to the site's own address or to null comes back as the
    all-ones marker. *)
Theorem jump_destination_after_set (P : platform) (this dest : address) (s : state) :
  let written := jump_target_written this dest in
  exists s',
    NativeJump.set_jump_destination P this dest s = Done tt s' /\
    mem s' = pd_patch_instruction P (mem s) this written /\
    log s' = log s ++ [EvPatchInstruction this written; EvInvalidate this 4] /\
    (target_addr_for_insn_or_null P (mem s') this = written ->
     NativeJump.jump_destination P this s' = Done (jump_target_read this written) s' /\
     (dest <> minus_one -> dest <> this -> dest <> nullptr ->
      NativeJump.jump_destination P this s' = Done dest s') /\
     (dest = minus_one \/ dest = this \/ dest = nullptr ->
      NativeJump.jump_destination P this s' = Done minus_one s')).
Proof.
  intros written. unfold NativeJump.set_jump_destination. mrun.
  rewrite Z.add_0_r, <- app_assoc. cbn [app].
  change (if dest =? minus_one then this else dest) with written.
  eexists. split; [reflexivity|]. split; [reflexivity|]. split; [reflexivity|].
  cbn [mem]. intros Hrt. rewrite jump_destination_runs. cbn [mem]. cbv zeta.
  rewrite Hrt. fold (jump_target_read this written).
  split; [reflexivity|]. unfold jump_target_read, written, jump_target_written.
  split.
  - intros H1 H2 H3.
    replace (dest =? minus_one) with false by lia.
    replace (dest =? this) with false by lia.
    replace (dest =? nullptr) with false by lia. reflexivity.
  - intros [-> | [-> | ->]].
    + now rewrite Z.eqb_refl, Z.eqb_refl.
    + destruct (this =? minus_one); rewrite Z.eqb_refl; reflexivity.
    + replace (nullptr =? minus_one) with false by reflexivity.
      now rewrite (Z.eqb_refl nullptr), orb_true_r.
Qed.

Lemma jump_destination_after_set_witness :
  let P := Sample.plat true in
  let s := Sample.start Sample.jumps_and_loads in
  (exists s',
     NativeJump.set_jump_destination P 0x10000200 0x10000400 s = Done tt s' /\
     NativeJump.jump_destination P 0x10000200 s' = Done 0x10000400 s') /\
  (exists s',
     NativeJump.set_jump_destination P 0x10000200 0x10000200 s = Done tt s' /\
     NativeJump.jump_destination P 0x10000200 s' = Done minus_one s').
Proof.
  intros P s. split.
  - destruct (jump_destination_after_set P 0x10000200 0x10000400 s)
      as (s' & Hrun & Hmem & _ & Hback).
    exists s'. split; [exact Hrun|].
    destruct Hback as (_ & Hsame & _); [rewrite Hmem; reflexivity|].
    apply Hsame; vm_compute; discriminate.
  - destruct (jump_destination_after_set P 0x10000200 0x10000200 s)
      as (s' & Hrun & Hmem & _ & Hback).
    exists s'. split; [exact Hrun|].
    destruct Hback as (_ & _ & Hself); [rewrite Hmem; reflexivity|].
    apply Hself. right. left. reflexivity.
Defined.

(** X11.  [NativeGeneralJump::set_jump_destination(dest)] hands the address
    to [set_data] of the constant load it starts with, the site's own
    address standing in for the all-ones marker.  Where the rewritten
    template decodes to that address and the updated reference slot lies
    outside it, [jump_destination()] returns [dest] again, except that the
    site's own address and null come back as the all-ones marker. *)
Theorem general_jump_destination_after_set
  (P : platform) (this dest ext : Z) (s : state) (cb : CodeBlob) :
  let written := jump_target_written this dest in
  let m1 := pd_patch_instruction P (mem s) this written in
  find_blob P this = Some cb ->
  0 <= written < 2 ^ 64 ->
  maybe_cpool_ref_insn P (load32 (mem s) this) = false ->
  target_addr_for_insn P m1 this = written ->
  maybe_cpool_ref_insn P (load32 m1 this) = false ->
  decoder_local P ext -> 4 <= ext ->
  (forall r, find is_reference (records_at P cb m1 this) = Some r ->
             disjoint (reloc_slot r) 8 this ext) ->
  exists s',
    NativeGeneralJump.set_jump_destination P this dest s = Done tt s' /\
    NativeMovConstReg.set_data P this (Int.intptr written) s = Done tt s' /\
    NativeGeneralJump.jump_destination P this s'
    = Done (jump_target_read this written) s'.
Proof.
  intros written m1 Hb Hrange Hnp Hrt Hstill Hloc Hext Hsep.
  pose proof (ptr_intptr written Hrange) as Hpi.
  assert (Hset : NativeGeneralJump.set_jump_destination P this dest s
                 = NativeMovConstReg.set_data P this (Int.intptr written) s).
  { unfold NativeGeneralJump.set_jump_destination, instruction_address, addr_at.
    now rewrite Z.add_0_r. }
  pose proof (set_data_runs P this (Int.intptr written) s cb Hb) as Hrun.
  cbv zeta in Hrun. rewrite Hset.
  assert (Hdata : forall s', NativeMovConstReg.set_data P this (Int.intptr written) s
                             = Done tt s' ->
                             NativeMovConstReg.data P this s'
                             = Done (Int.intptr written) s').
  { intros s' Hs'.
    apply (data_after_set_data_inline P this (Int.intptr written) ext s s' cb Hb
             (intptr_range written) Hnp); rewrite ?Hpi; assumption. }
  specialize (Hdata _ Hrun).
  eexists. split; [exact Hrun|]. split; [exact Hrun|].
  rewrite (general_jump_destination_runs P this _ _ Hdata), Hpi.
  reflexivity.
Qed.

Lemma general_jump_destination_after_set_witness :
  let P := Sample.plat true in
  let s := Sample.start Sample.jumps_and_loads in
  exists s',
    NativeGeneralJump.set_jump_destination P 0x10000100 0x123456789abc s = Done tt s' /\
    NativeGeneralJump.jump_destination P 0x10000100 s' = Done 0x123456789abc s'.
Proof.
  intros P s.
  destruct (general_jump_destination_after_set P 0x10000100 0x123456789abc 12 s
              (Blob_nmethod Sample.unit_nm))
    as (s' & Hrun & _ & Hback).
  - reflexivity.
  - change (0 <= 0x123456789abc < 2 ^ 64). lia.
  - reflexivity.
  - reflexivity.
  - reflexivity.
  - apply sample_decoder_local.
  - lia.
  - intros r Hr. vm_compute in Hr. injection Hr as <-. right. cbn. lia.
  - exists s'. split; [exact Hrun | exact Hback].
Defined.

(** ** The classifications [NativeMovConstReg::verify] relies on *)

Lemma extract_testbit (w msb lsb i : Z) :
  0 <= lsb -> 0 <= i <= msb - lsb ->
  Z.testbit (Instruction_aarch64.extract w msb lsb) i = Z.testbit w (i + lsb).
Proof.
  intros Hl Hi. unfold Instruction_aarch64.extract.
  rewrite Z.land_spec, Z.shiftr_spec, Z.testbit_ones_nonneg by lia.
  replace (i <? msb - lsb + 1) with true by lia. apply andb_true_r.
Qed.

Lemma movz_word_bits (w : Z) :
  Instruction_aarch64.extract w 30 23 = 0xa5 ->
  Z.testbit w 25 = true /\ Z.testbit w 27 = false /\ Z.testbit w 29 = false.
Proof.
  intros H. repeat split.
  - change 25 with (2 + 23). rewrite <- (extract_testbit w 30 23 2), H by lia.
    reflexivity.
  - change 27 with (4 + 23). rewrite <- (extract_testbit w 30 23 4), H by lia.
    reflexivity.
  - change 29 with (6 + 23). rewrite <- (extract_testbit w 30 23 6), H by lia.
    reflexivity.
Qed.

Lemma movk_word_bits (w : Z) :
  Instruction_aarch64.extract w 30 23 = 0xe5 ->
  Z.testbit w 25 = true /\ Z.testbit w 27 = false /\ Z.testbit w 29 = true.
Proof.
  intros H. repeat split.
  - change 25 with (2 + 23). rewrite <- (extract_testbit w 30 23 2), H by lia.
    reflexivity.
  - change 27 with (4 + 23). rewrite <- (extract_testbit w 30 23 4), H by lia.
    reflexivity.
  - change 29 with (6 + 23). rewrite <- (extract_testbit w 30 23 6), H by lia.
    reflexivity.
Qed.

Lemma adrp_word_bits (w : Z) :
  Z.land (Instruction_aarch64.extract w 31 24) 0x9f = 0x90 ->
  Z.testbit w 25 = false /\ Z.testbit w 27 = false.
Proof.
  intros H. split.
  - pose proof (f_equal (fun z => Z.testbit z 1) H) as Hb. cbv beta in Hb.
    rewrite Z.land_spec, (extract_testbit w 31 24 1) in Hb by lia.
    change (Z.testbit 0x9f 1) with true in Hb. change (Z.testbit 0x90 1) with false in Hb.
    rewrite andb_true_r in Hb. exact Hb.
  - pose proof (f_equal (fun z => Z.testbit z 3) H) as Hb. cbv beta in Hb.
    rewrite Z.land_spec, (extract_testbit w 31 24 3) in Hb by lia.
    change (Z.testbit 0x9f 3) with true in Hb. change (Z.testbit 0x90 3) with false in Hb.
    rewrite andb_true_r in Hb. exact Hb.
Qed.

Lemma ldr_literal_word_bits (w : Z) :
  Z.land (Instruction_aarch64.extract w 29 24) 0x1b = 0x18 ->
  Z.testbit w 25 = false /\ Z.testbit w 27 = true.
Proof.
  intros H. split.
  - pose proof (f_equal (fun z => Z.testbit z 1) H) as Hb. cbv beta in Hb.
    rewrite Z.land_spec, (extract_testbit w 29 24 1) in Hb by lia.
    change (Z.testbit 0x1b 1) with true in Hb. change (Z.testbit 0x18 1) with false in Hb.
    rewrite andb_true_r in Hb. exact Hb.
  - pose proof (f_equal (fun z => Z.testbit z 3) H) as Hb. cbv beta in Hb.
    rewrite Z.land_spec, (extract_testbit w 29 24 3) in Hb by lia.
    change (Z.testbit 0x1b 3) with true in Hb. change (Z.testbit 0x18 3) with true in Hb.
    rewrite andb_true_r in Hb. exact Hb.
Qed.

Lemma classifiers_run (a : address) (s : state) :
  let w := load32 (mem s) a in
  is_movz a s = Done (Instruction_aarch64.extract w 30 23 =? 0xa5) s /\
  is_movk a s = Done (Instruction_aarch64.extract w 30 23 =? 0xe5) s /\
  is_adrp_at a s
  = Done (Z.land (Instruction_aarch64.extract w 31 24) 0x9f =? 0x90) s /\
  is_ldr_literal_at a s
  = Done (Z.land (Instruction_aarch64.extract w 29 24) 0x1b =? 0x18) s.
Proof.
  unfold is_movz, is_movk, is_adrp_at, is_ldr_literal_at. mrun.
  rewrite Z.add_0_r, uint32_int32 by apply load32_range. repeat split.
Qed.

(** X12.  The instruction classes the file tells apart exclude one another:
    no instruction word is at once move-wide and move-wide-keep, and no word
    is recognized as two of move-wide, address-of-page and
    load-register-literal, nor as move-wide-keep together with one of the
    latter two.  [NativeMovConstReg::verify] returns, leaving the state as
    it is, exactly when the site is of one of its three forms, and ends in a
    fatal error otherwise, in particular at a move-wide-keep. *)
Theorem constant_load_classes_exclusive (a : address) (s : state) :
  let yes (c : M bool) := c s = Done true s in
  ~ (yes (is_movz a) /\ yes (is_movk a)) /\
  ~ (yes (is_movz a) /\ yes (is_adrp_at a)) /\
  ~ (yes (is_movz a) /\ yes (is_ldr_literal_at a)) /\
  ~ (yes (is_adrp_at a) /\ yes (is_ldr_literal_at a)) /\
  ~ (yes (is_movk a) /\ yes (is_adrp_at a)) /\
  ~ (yes (is_movk a) /\ yes (is_ldr_literal_at a)) /\
  (NativeMovConstReg.verify a s = Done tt s <->
   yes (is_movz a) \/ yes (is_adrp_at a) \/ yes (is_ldr_literal_at a)) /\
  (~ (yes (is_movz a) \/ yes (is_adrp_at a) \/ yes (is_ldr_literal_at a)) ->
   NativeMovConstReg.verify a s = Abort FatalError s) /\
  (yes (is_movk a) -> NativeMovConstReg.verify a s = Abort FatalError s).
Proof.
  intros yes. subst yes. cbv beta.
  destruct (classifiers_run a s) as (Hz & Hk & Ha & Hl). cbv zeta in *.
  set (w := load32 (mem s) a) in *.
  assert (Hv : NativeMovConstReg.verify a s
               = if negb ((Instruction_aarch64.extract w 30 23 =? 0xa5)
                          || (Z.land (Instruction_aarch64.extract w 31 24) 0x9f =? 0x90)
                          || (Z.land (Instruction_aarch64.extract w 29 24) 0x1b =? 0x18))
                 then Abort FatalError s else Done tt s).
  { unfold NativeMovConstReg.verify, instruction_address, addr_at.
    rewrite Z.add_0_r.
    erewrite bind_done by exact Hz. erewrite bind_done by exact Ha.
    erewrite bind_done by exact Hl.
    destruct (negb _); reflexivity. }
  rewrite Hz, Hk, Ha, Hl, Hv.
  destruct (Z.eqb_spec (Instruction_aarch64.extract w 30 23) 0xa5) as [Ez|Ez];
  destruct (Z.eqb_spec (Instruction_aarch64.extract w 30 23) 0xe5) as [Ek|Ek];
  destruct (Z.eqb_spec (Z.land (Instruction_aarch64.extract w 31 24) 0x9f) 0x90)
    as [Ea|Ea];
  destruct (Z.eqb_spec (Z.land (Instruction_aarch64.extract w 29 24) 0x1b) 0x18)
    as [El|El];
  try (exfalso; congruence);
  try (exfalso;
       repeat match goal with
              | H : Instruction_aarch64.extract w 30 23 = 0xa5 |- _ =>
                  apply movz_word_bits in H
              | H : Instruction_aarch64.extract w 30 23 = 0xe5 |- _ =>
                  apply movk_word_bits in H
              | H : Z.land (Instruction_aarch64.extract w 31 24) 0x9f = 0x90 |- _ =>
                  apply adrp_word_bits in H
              | H : Z.land (Instruction_aarch64.extract w 29 24) 0x1b = 0x18 |- _ =>
                  apply ldr_literal_word_bits in H
              end;
       intuition congruence);
  cbn [orb negb];
  repeat split; try (intros [H1 H2]; discriminate);
    try (intros H; discriminate);
    try tauto;
    try (intros [H|[H|H]]; discriminate);
    try (intros H; exfalso; apply H; tauto).
Qed.

(** ** NativeMovRegMem outside the pool *)

Lemma signed_small (w x : Z) :
  0 < w -> - 2 ^ (w - 1) <= x < 2 ^ (w - 1) -> Int.signed w x = x.
Proof.
  intros Hw Hx. unfold Int.signed.
  replace (2 ^ w) with (2 * 2 ^ (w - 1))
    by (rewrite <- Z.pow_succ_r by lia; f_equal; lia).
  set (h := 2 ^ (w - 1)) in *. assert (0 < h) by (subst h; apply Z.pow_pos_nonneg; lia).
  cbv zeta. destruct (Z_lt_le_dec x 0) as [Hn|Hp].
  - assert (E : x mod (2 * h) = x + 2 * h).
    { symmetry. apply Z.mod_unique with (q := -1); lia. }
    rewrite E. destruct (Z.ltb_spec (x + 2 * h) h); lia.
  - rewrite Z.mod_small by lia. destruct (Z.ltb_spec x h); lia.
Qed.

(** X13.  At a site that is not a pool reference, [set_offset(x)] rewrites
    the instruction to encode [x] (sign-extended to a pointer) and
    invalidates the instruction cache over the site.  Where the rewritten
    instruction decodes to that pointer and is not of the address-of-page
    family, [offset()] returns [x] again. *)
Theorem offset_after_set_offset_inline (P : platform) (this x : Z) (s : state) :
  let target := Int.ptr (Int.intptr x) in
  let m1 := pd_patch_instruction P (mem s) this target in
  maybe_cpool_ref_insn P (load32 (mem s) this) = false ->
  exists s',
    NativeMovRegMem.set_offset P this x s = Done tt s' /\
    mem s' = m1 /\
    log s' = log s ++ [EvPatchInstruction this target; EvInvalidate this 4] /\
    (- 2 ^ 31 <= x < 2 ^ 31 ->
     target_addr_for_insn P m1 this = target ->
     Instruction_aarch64.extract (load32 m1 this) 28 24 <> 0x10 ->
     NativeMovRegMem.offset P this s' = Done x s').
Proof.
  intros target m1 Hnp.
  unfold NativeMovRegMem.set_offset. mrun. rewrite !Z.add_0_r, Hnp. mrun.
  rewrite <- app_assoc. cbn [app]. fold target. fold m1.
  eexists. split; [reflexivity|]. split; [reflexivity|]. split; [reflexivity|].
  intros Hx Hrt Hfam. unfold NativeMovRegMem.offset. mrun. rewrite !Z.add_0_r.
  change (load 4 m1 this) with (load32 m1 this).
  replace (Instruction_aarch64.extract (load32 m1 this) 28 24 =? 16) with false
    by (symmetry; apply Z.eqb_neq; exact Hfam).
  cbn [mem]. rewrite Hrt. f_equal. unfold target.
  assert (Hx64 : - 2 ^ 63 <= x < 2 ^ 63) by lia.
  assert (E : Int.intptr x = x) by (apply (signed_small 64); simpl; lia).
  rewrite E, (intptr_ptr x Hx64). apply (signed_small 32); simpl; lia.
Qed.

Lemma offset_after_set_offset_inline_witness :
  let P := Sample.plat true in
  let s := Sample.start Sample.jumps_and_loads in
  exists s',
    NativeMovRegMem.set_offset P 0x10000100 0x1234 s = Done tt s' /\
    log s' = [EvPatchInstruction 0x10000100 0x1234; EvInvalidate 0x10000100 4] /\
    NativeMovRegMem.offset P 0x10000100 s' = Done 0x1234 s'.
Proof.
  intros P s.
  destruct (offset_after_set_offset_inline P 0x10000100 0x1234 s)
    as (s' & Hrun & _ & Hlog & Hback).
  - reflexivity.
  - exists s'. split; [exact Hrun|]. split; [exact Hlog|].
    apply Hback.
    + lia.
    + reflexivity.
    + vm_compute. discriminate.
Defined.

(** ** A reader during a redirection to a reachable target *)

(** After the store to the trampoline's slot alone, the call resolves to what
    it resolved to before or to the value stored. *)
Lemma destination_after_slot_store
  (P : platform) (nm : nmethod) (this dest : address) (m : memory)
  (l : list event) (old : address) (so : state) :
  let tramp := trampoline_of P nm m this in
  let slot := tramp + data_offset P in
  let raw := this + decode_displacement P (load32 m this) in
  find_blob P this = Some (Blob_nmethod nm) ->
  call_layout P nm m this tramp ->
  0 <= dest < 2 ^ 64 ->
  raw = tramp \/ disjoint slot 8 raw (data_offset P) ->
  NativeCall.destination P this (mkState m l) = Done old so ->
  exists T sr,
    NativeCall.destination P this
      (mkState (store 8 m slot (Int.uint64 dest)) l) = Done T sr /\
    (T = old \/ T = dest).
Proof.
  intros tramp slot raw Hblob Hlay Hdest Hraw Hold.
  set (m1 := store 8 m slot (Int.uint64 dest)).
  destruct Hlay as [Ho Hd Hr Hp Hl He].
  assert (Hword : load32 m1 this = load32 m this).
  { apply (load_store_disjoint 8 4). unfold disjoint in *. subst slot.
    simpl Z.of_nat. lia. }
  assert (Hpro : is_NativeCallTrampolineStub_at P m1 tramp = true).
  { rewrite <- Hp. apply Hl. intros i Hi. apply store_outside. subst slot. lia. }
  assert (Hslot : load64 m1 slot = dest).
  { unfold m1. rewrite load64_store64, uint64_idem. unfold Int.uint64.
    now apply Z.mod_small. }
  destruct (Z.eq_dec raw this) as [Hself|Hns].
  - rewrite destination_self in Hold by exact Hself. injection Hold as <- _.
    rewrite destination_self by (cbn [mem]; rewrite Hword; exact Hself).
    do 2 eexists. split; [reflexivity | now left].
  - rewrite (destination_runs P this _ nm Hblob) in Hold by exact Hns.
    cbn [mem log] in Hold. fold raw in Hold.
    rewrite (destination_runs P this _ nm Hblob)
      by (cbn [mem]; rewrite Hword; exact Hns).
    cbn [mem log]. rewrite Hword. fold raw.
    do 2 eexists. split; [reflexivity|].
    destruct (Z.eq_dec raw tramp) as [Heq|Hnt].
    + right. rewrite Heq, Hr, Hpro. cbn [andb]. exact Hslot.
    + left. destruct Hraw as [Heq|Hdis]; [contradiction|].
      assert (Hsame : is_NativeCallTrampolineStub_at P m1 raw
                      = is_NativeCallTrampolineStub_at P m raw).
      { apply Hl. apply (agree_store_disjoint 8). exact Hdis. }
      rewrite Hsame.
      destruct (stub_contains nm raw && is_NativeCallTrampolineStub_at P m raw) eqn:E.
      * exfalso. apply Hnt. subst tramp. unfold trampoline_of. fold raw.
        now rewrite E.
      * now injection Hold as <- _.
Qed.

(** A call word that encodes the distance to a target outside the stub
    region resolves to that target. *)
Lemma destination_direct
  (P : platform) (nm : nmethod) (this dest : address) (m : memory) (l : list event) :
  find_blob P this = Some (Blob_nmethod nm) ->
  decode_displacement P (load32 m this) = dest - this ->
  stub_contains nm dest = false ->
  returned (NativeCall.destination P this (mkState m l)) = Some dest.
Proof.
  intros Hblob Hdec Hout.
  assert (Ht : this + decode_displacement P (load32 m this) = dest) by lia.
  destruct (Z.eq_dec dest this) as [Heq|Hne].
  - rewrite destination_self by (cbn [mem]; rewrite Ht; exact Heq).
    cbn. now rewrite Heq.
  - rewrite (destination_runs P this _ nm Hblob) by (cbn [mem]; now rewrite Ht).
    cbn [mem returned]. rewrite Ht, Hout. reflexivity.
Qed.

(** X14.  The redirection to a reachable target that lies outside the
    unit's stub region, and whose distance the platform's call word encodes,
    is as safe to observe as the one through the trampoline.  With each
    store of the mutation taken as one atomic step, [destination()]
    evaluated on the memory reached after any prefix of the events of
    [set_destination_mt_safe(dest)] returns the destination the call had
    before or [dest], and [dest] once the mutation is complete; this holds
    for a call without trampoline and for a call whose trampoline is laid
    out as emitted. *)
Theorem reader_sees_old_or_new_reachable
  (P : platform) (nm : nmethod) (this dest : address) (s : state) (old : address) :
  let tramp := trampoline_of P nm (mem s) this in
  let slot := tramp + data_offset P in
  let raw := this + decode_displacement P (load32 (mem s) this) in
  find_blob P this = Some (Blob_nmethod nm) ->
  (ASSERT P = true ->
     patching_is_safe P this = true /\
     is_call_insn P (load32 (mem s) this) = true /\
     (tramp <> nullptr -> is_NativeCallTrampolineStub_at P (mem s) dest = false)) ->
  reachable_from_branch_at P this dest = true ->
  decode_displacement P (Int.uint32 (encode_call P (dest - this))) = dest - this ->
  stub_contains nm dest = false ->
  (tramp <> nullptr ->
     call_layout P nm (mem s) this tramp /\ 0 <= dest < 2 ^ 64 /\
     (raw = tramp \/ disjoint slot 8 raw (data_offset P))) ->
  returned (NativeCall.destination P this (mkState (mem s) [])) = Some old ->
  exists s' evs,
    NativeCall.set_destination_mt_safe P this dest s = Done tt s' /\
    log s' = log s ++ evs /\
    mem s' = replay P (mem s) evs /\
    returned (NativeCall.destination P this (mkState (mem s') [])) = Some dest /\
    forall k : nat,
      let seen := replay P (mem s) (firstn k evs) in
      exists T,
        returned (NativeCall.destination P this (mkState seen [])) = Some T /\
        (T = old \/ T = dest).
Proof.
  intros tramp slot raw Hblob Hpre Hnear Hcodec Hout Hlay Hold.
  pose proof (redirection_runs P nm this dest s Hblob) as Hrun.
  cbv zeta in Hrun. fold tramp slot in Hrun. rewrite Hnear in Hrun.
  rewrite Hrun.
  2:{ intros H. destruct (Hpre H) as (H1 & H2 & H3).
      repeat split; try assumption. discriminate. }
  set (w := Int.uint32 (encode_call P (dest - this))) in *.
  assert (Hfinal : forall m l,
             returned (NativeCall.destination P this (mkState (store 4 m this w) l))
             = Some dest).
  { intros m l. apply (destination_direct P nm this dest _ l Hblob); [|exact Hout].
    unfold w. now rewrite load32_store32, uint32_idem. }
  do 2 eexists. split; [reflexivity|]. split; [reflexivity|].
  destruct (Z.eqb_spec tramp nullptr) as [Hnull|Hnn].
  - cbn [app]. split; [reflexivity|]. split; [apply Hfinal|].
    intros k.
    destruct k as [|[|k]]; cbn [firstn replay fold_left apply_event].
    + exists old. split; [exact Hold | now left].
    + exists old. split; [exact Hold | now left].
    + exists dest. split; [|now right].
      destruct k; cbn [firstn replay fold_left apply_event];
        rewrite ?firstn_nil; cbn [fold_left];
        change (Z.to_nat 4) with 4%nat; apply Hfinal.
  - destruct (Hlay Hnn) as (Hcl & Hdest & Hraw).
    apply returned_done in Hold. destruct Hold as [so Hold].
    destruct (destination_after_slot_store P nm this dest (mem s) [] old so
                Hblob Hcl Hdest Hraw Hold) as (T1 & sr & Hm1 & HT1).
    fold tramp slot in Hm1.
    cbn [app]. split; [reflexivity|]. split; [apply Hfinal|].
    intros k.
    destruct k as [|[|[|[|k]]]]; cbn [firstn replay fold_left apply_event].
    + exists old. rewrite Hold. split; [reflexivity | now left].
    + exists old. rewrite Hold. split; [reflexivity | now left].
    + exists T1. change (Z.to_nat 8) with 8%nat. rewrite Hm1.
      split; [reflexivity | exact HT1].
    + exists T1. change (Z.to_nat 8) with 8%nat. rewrite Hm1.
      split; [reflexivity | exact HT1].
    + exists dest. split; [|now right].
      destruct k; cbn [firstn replay fold_left apply_event];
        rewrite ?firstn_nil; cbn [fold_left];
        change (Z.to_nat 8) with 8%nat; change (Z.to_nat 4) with 4%nat;
        apply Hfinal.
Qed.

Lemma reader_sees_old_or_new_reachable_witness :
  let P := Sample.plat true in
  let s := Sample.start Sample.trampolined_call in
  exists s' evs,
    NativeCall.set_destination_mt_safe P 0x10000000 0x10000800 s = Done tt s' /\
    log s' = log s ++ evs /\
    mem s' = replay P (mem s) evs /\
    returned (NativeCall.destination P 0x10000000 (mkState (mem s') []))
    = Some 0x10000800 /\
    forall k : nat,
      let seen := replay P (mem s) (firstn k evs) in
      exists T,
        returned (NativeCall.destination P 0x10000000 (mkState seen [])) = Some T /\
        (T = Sample.far \/ T = 0x10000800).
Proof.
  intros P s.
  apply (reader_sees_old_or_new_reachable P Sample.unit_nm 0x10000000 0x10000800 s
           Sample.far).
  - reflexivity.
  - intros _. repeat split; reflexivity.
  - reflexivity.
  - reflexivity.
  - reflexivity.
  - intros _. split; [exact sample_call_layout|]. split; [lia|]. left. reflexivity.
  - reflexivity.
Defined.

(** * Where two of the statements stop *)

(** C2, as stated, fails at a call that has no trampoline.  The call at
    [0x10000080] has none, and [Sample.far2] is outside its branch range.
    In a build without assertions [set_destination_mt_safe] then rewrites
    the call word for the null trampoline address; once that store is done,
    [destination()] returns [0x10000000], which is neither the destination
    the call had before nor the one asked for. *)
Lemma far_target_without_trampoline_observed :
  let P := Sample.plat false in
  let s := Sample.start (Sample.trampolined_call ++ Sample.edge_calls) in
  let old := 0x10000080 - Sample.M128 in
  let o := NativeCall.set_destination_mt_safe P 0x10000080 Sample.far2 s in
  let evs := [EvFindBlob 0x10000080; EvStore 0x10000080 4 0x97ffffe0;
              EvInvalidate 0x10000080 4] in
  reachable_from_branch_at P 0x10000080 Sample.far2 = false /\
  returned (NativeCall.get_trampoline P 0x10000080 s) = Some nullptr /\
  returned (NativeCall.destination P 0x10000080 (mkState (mem s) [])) = Some old /\
  returned o = Some tt /\
  log (final o) = log s ++ evs /\
  (forall i, mem (final o) i = replay P (mem s) evs i) /\
  (let seen := replay P (mem s) (firstn 2 evs) in
   returned (NativeCall.destination P 0x10000080 (mkState seen [])) = Some 0x10000000 /\
   0x10000000 <> old /\ 0x10000000 <> Sample.far2).
Proof.
  cbv zeta. repeat split; try (vm_compute; reflexivity);
    try (vm_compute; discriminate).
Qed.

(** C9, as stated, fails for a value the template cannot hold.  The
    constant load [movz; movk; movk] at [0x10000100] is not a pool
    reference and carries three 16-bit immediates.  After [set_data(2^48)]
    the relocation record's slot holds [2^48] but [data()] returns [0];
    after [set_data(-1)] the slot holds all ones and [data()] returns
    [2^48 - 1]. *)
Lemma set_data_wide_value_not_read_back :
  let P := Sample.plat true in
  let s := Sample.start Sample.jumps_and_loads in
  let o1 := NativeMovConstReg.set_data P 0x10000100 (2 ^ 48) s in
  let o2 := NativeMovConstReg.set_data P 0x10000100 (-1) s in
  returned (maybe_cpool_ref P 0x10000100 s) = Some false /\
  (returned o1 = Some tt /\
   load64 (mem (final o1)) 0x1000c000 = 2 ^ 48 /\
   returned (NativeMovConstReg.data P 0x10000100 (final o1)) = Some 0 /\
   returned (NativeMovConstReg.data P 0x10000100 (final o1)) <> Some (2 ^ 48)) /\
  (returned o2 = Some tt /\
   load64 (mem (final o2)) 0x1000c000 = Int.uint64 (-1) /\
   returned (NativeMovConstReg.data P 0x10000100 (final o2)) = Some (2 ^ 48 - 1) /\
   returned (NativeMovConstReg.data P 0x10000100 (final o2)) <> Some (-1)).
Proof.
  cbv zeta. repeat split; try (vm_compute; reflexivity);
    try (vm_compute; discriminate).
Qed.
